(** * Perk request handlers (server/src/controllers/perkController.js)

    A shallow embedding of the perk controller: the Joi schema [perkSchema]
    with the part of Joi's validation algorithm that the schema exercises,
    the document store behind the [Perk] and [User] models, and the request
    handlers [filterPerks], [getAllPerksPublic], [getPerk], [createPerk],
    [updatePerk] and [deletePerk].

    Conventions.
    - JavaScript values are the inductive [value]; numbers are rationals
      (JSON numbers are decimal fractions; NaN and the infinities cannot
      occur in a JSON body), strings are sequences of code units below
      256 (the code points U+0000 to U+00FF).
    - A JavaScript object is an association list in insertion order
      ([obj]); [get] reads a property ([undefined] when it is missing).
    - A thrown exception is [Throw e]; a handler returns the response it
      sent, or [Next e] when it handed [e] to the framework's error
      handler, together with the store after the request. *)

From Stdlib Require Import String Ascii List Bool ZArith QArith Lia.
From Stdlib Require Import Permutation Sorted DecimalString.
Import ListNotations.
Open Scope string_scope.
Open Scope list_scope.

Set Warnings "-register-all".

(* ================================================================== *)
(** * JavaScript values and objects *)
(* ================================================================== *)

Inductive value : Type :=
| VUndefined
| VNull
| VBool (b : bool)
| VNum (q : Q)
| VStr (s : string)
| VObjectId (hex : string)            (* a BSON ObjectId, by its hex form *)
| VDate (ms : Z)                       (* a Date, by its epoch time *)
| VArray (items : list value)
| VObject (fields : list (string * value)).

Definition obj : Type := list (string * value).

(** Property lookup: [lookup k o] is the own property [k] when the object
    has it; [get k o] is the JavaScript expression [o[k]]. *)
Fixpoint lookup (k : string) (o : obj) : option value :=
  match o with
  | [] => None
  | (k', v) :: rest => if String.eqb k k' then Some v else lookup k rest
  end.

Definition get (k : string) (o : obj) : value :=
  match lookup k o with
  | Some v => v
  | None => VUndefined
  end.

Definition has (k : string) (o : obj) : bool :=
  match lookup k o with
  | Some _ => true
  | None => false
  end.

(** [o[k] = v]: an existing property keeps its position, a new one is
    appended. *)
Fixpoint set (k : string) (v : value) (o : obj) : obj :=
  match o with
  | [] => [(k, v)]
  | (k', v') :: rest =>
      if String.eqb k k' then (k', v) :: rest else (k', v') :: set k v rest
  end.

(** [delete o[k]]. *)
Fixpoint delete (k : string) (o : obj) : obj :=
  match o with
  | [] => []
  | (k', v') :: rest =>
      if String.eqb k k' then delete k rest else (k', v') :: delete k rest
  end.

(** [Object.keys(o)]. *)
Definition keys (o : obj) : list string := map fst o.

(** The object spread [{ ...a, ...b }]. *)
Definition spread (a b : obj) : obj :=
  fold_left (fun acc kv => set (fst kv) (snd kv) acc) b a.

(** The own enumerable properties that a spread [...v] copies: those of an
    object, the indexed elements of an array or of a string, none for the
    other values. *)
Definition index_key (n : nat) : string := NilEmpty.string_of_uint (Nat.to_uint n).

Fixpoint indexed {A : Type} (n : nat) (l : list A) : list (string * A) :=
  match l with
  | [] => []
  | x :: rest => (index_key n, x) :: indexed (S n) rest
  end.

Definition own_props (v : value) : obj :=
  match v with
  | VObject fields => fields
  | VArray items => indexed 0 items
  | VStr s =>
      indexed 0 (map (fun c => VStr (String c EmptyString)) (list_ascii_of_string s))
  | _ => []
  end.

(** [x === undefined]. *)
Definition is_undefined (v : value) : bool :=
  match v with
  | VUndefined => true
  | _ => false
  end.

(** JavaScript truthiness, as tested by [if (x)] and [!x]. *)
Definition truthy (v : value) : bool :=
  match v with
  | VUndefined | VNull => false
  | VBool b => b
  | VNum q => negb (Qeq_bool q 0)
  | VStr s => negb (String.eqb s "")
  | VObjectId _ | VDate _ | VArray _ | VObject _ => true
  end.

(** ** Case folding and trimming ([toLowerCase], [trim])

    A string is a sequence of code units below 256, the code points U+0000
    to U+00FF. Among them [String.prototype.toLowerCase] moves the capital
    letters: A to Z (65 to 90), and the accented capitals U+00C0 to U+00DE
    (192 to 222) but for the multiplication sign U+00D7 (215), each to the
    code unit 32 above it. [String.prototype.trim] strips white space and
    line terminators from both ends: among these code units the tab, line
    feed, vertical tab, form feed and carriage return (9 to 13), the space
    (32) and the no-break space U+00A0 (160). *)

Definition lower_ascii (c : ascii) : ascii :=
  let n := nat_of_ascii c in
  if orb (andb (Nat.leb 65 n) (Nat.leb n 90))
         (orb (andb (Nat.leb 192 n) (Nat.leb n 214))
              (andb (Nat.leb 216 n) (Nat.leb n 222)))
  then ascii_of_nat (n + 32) else c.

Fixpoint toLowerCase (s : string) : string :=
  match s with
  | EmptyString => EmptyString
  | String c rest => String (lower_ascii c) (toLowerCase rest)
  end.

Definition is_space (c : ascii) : bool :=
  let n := nat_of_ascii c in
  orb (Nat.eqb n 32)
      (orb (andb (Nat.leb 9 n) (Nat.leb n 13)) (Nat.eqb n 160)).

Fixpoint trimStart (s : string) : string :=
  match s with
  | EmptyString => EmptyString
  | String c rest => if is_space c then trimStart rest else s
  end.

Fixpoint trimEnd (s : string) : string :=
  match s with
  | EmptyString => EmptyString
  | String c rest =>
      match trimEnd rest with
      | EmptyString => if is_space c then EmptyString else String c EmptyString
      | t => String c t
      end
  end.

Definition trim (s : string) : string := trimEnd (trimStart s).

(** [s.includes(c)] for a one-character needle. *)
Fixpoint includes_char (c : ascii) (s : string) : bool :=
  match s with
  | EmptyString => false
  | String c' rest => orb (Ascii.eqb c c') (includes_char c rest)
  end.

(* ================================================================== *)
(** * The environment of the controller *)
(* ================================================================== *)

(** An exception value: its [name] and its [code] property ([undefined]
    when the error has none). *)
Record error : Type := mkError { err_name : string; err_code : value }.

Definition TypeError : error := mkError "TypeError" VUndefined.
Definition CastError : error := mkError "CastError" VUndefined.

(** The outcome of Joi's conversion of a string to a number. *)
Inductive coerced : Type :=
| NotNumeric                 (* the string does not match the number pattern *)
| Numeric (q : Q)            (* it converts to [q] *)
| UnsafeNumeric (q : Q).     (* it converts, with a loss of precision *)

(** A document of the [users] collection, as [select('name email').lean()]
    returns it. *)
Record User : Type := mkUser {
  user_id : string;                    (* [String(u._id)] *)
  user_name : string;
  user_email : option string
}.

(** The collections behind the [Perk] and [User] models. *)
Record store : Type := mkStore { perks : list obj; users : list User }.

(** What the controller takes from its libraries and from models/Perk.js
    and models/User.js, none of which it defines: library functions whose
    result the controller only passes along, and the store's own checks. *)
Record Env : Type := mkEnv {
  (* Joi: string-to-number and string-to-object conversion, the rendering
     of a number inside a message *)
  numberCoerce : string -> coerced;
  jsonObject : string -> option obj;
  showNumber : Q -> string;
  (* JavaScript: [String(v)] of a value that is neither a string nor an
     ObjectId; [new RegExp(pattern, options).test(subject)] *)
  otherToString : value -> string;
  regexTest : string -> string -> string -> bool;
  (* bson: [ObjectId.isValid(s)] and the hex form of [new ObjectId(s)] *)
  isValid : string -> bool;
  castId : string -> string;
  (* the Perk model: the identifier and creation time given to a new
     document, and the error (if any) that the schema validators and the
     unique indexes raise on an insert and on an update *)
  newId : store -> string;
  now : store -> Z;
  insertCheck : store -> obj -> option error;
  updateCheck : store -> string -> obj -> option error
}.

(* ================================================================== *)
(** * Joi: schemas and validation *)
(* ================================================================== *)

Inductive base : Type := TAny | TString | TNumber.

Inductive presence : Type := Optional | Required | Forbidden.

(** The rules a schema of [perkSchema] carries. [Min] and [Max] compare the
    length of a string, or a number, with the limit. *)
Inductive rule : Type :=
| Min (limit : Q)
| Max (limit : Q).

Record schema : Type := mkSchema {
  s_type : base;
  s_presence : option presence;        (* [_flags.presence] *)
  s_valids : list value;               (* [_valids], from allow() and valid() *)
  s_only : bool;                       (* [_flags.only], from valid() *)
  s_rules : list rule;                 (* [_rules], in the order of the calls *)
  s_default : option value             (* [_flags.default] *)
}.

(** [Joi.object({...})]: the children in the order of the literal. *)
Record object_schema : Type := mkObject { children : list (string * schema) }.

(** The validation preferences, with Joi's defaults in [defaults]. *)
Record prefs : Type := mkPrefs {
  abortEarly : bool;
  allowUnknown : bool;
  convert : bool;
  stripUnknown : bool
}.

Definition defaults : prefs :=
  {| abortEarly := true; allowUnknown := false; convert := true;
     stripUnknown := false |}.

(** An entry of [error.details]. *)
Record detail : Type := mkDetail {
  d_message : string;
  d_path : list string;
  d_type : string
}.

Record vresult : Type := mkResult { r_value : value; r_errors : list detail }.

Definition dquote : string := String (ascii_of_nat 34) EmptyString.

(** [{{#label}}]: the quoted key of the failing path, ["value"] at the
    root. *)
Definition label (path : list string) : string :=
  dquote ++ last path "value" ++ dquote.

(** [===] on the primitive values a list of valids holds. *)
Definition strict_equal (a b : value) : bool :=
  match a, b with
  | VUndefined, VUndefined => true
  | VNull, VNull => true
  | VBool x, VBool y => Bool.eqb x y
  | VNum x, VNum y => Qeq_bool x y
  | VStr x, VStr y => String.eqb x y
  | _, _ => false
  end.

Definition max_safe_integer : Q := 9007199254740991 # 1.

Section Validation.

Variable E : Env.

Definition display (v : value) : string :=
  match v with
  | VStr s => s
  | VNum q => showNumber E q
  | VNull => "null"
  | VBool true => "true"
  | VBool false => "false"
  | _ => otherToString E v
  end.

(** The messages of the error codes below, after Joi's templates. *)
Definition message_of (code : string) (path : list string)
           (limit : Q) (valids : list value) : string :=
  let l := label path in
  if String.eqb code "any.required" then l ++ " is required"
  else if String.eqb code "any.unknown" then l ++ " is not allowed"
  else if String.eqb code "object.unknown" then l ++ " is not allowed"
  else if String.eqb code "any.only" then
    l ++ " must be " ++ (if Nat.eqb (length valids) 1 then "" else "one of ")
      ++ "[" ++ String.concat ", " (map display valids) ++ "]"
  else if String.eqb code "string.base" then l ++ " must be a string"
  else if String.eqb code "string.empty" then l ++ " is not allowed to be empty"
  else if String.eqb code "string.min" then
    l ++ " length must be at least " ++ showNumber E limit ++ " characters long"
  else if String.eqb code "string.max" then
    l ++ " length must be less than or equal to " ++ showNumber E limit
      ++ " characters long"
  else if String.eqb code "number.base" then l ++ " must be a number"
  else if String.eqb code "number.unsafe" then l ++ " must be a safe number"
  else if String.eqb code "number.min" then
    l ++ " must be greater than or equal to " ++ showNumber E limit
  else if String.eqb code "number.max" then
    l ++ " must be less than or equal to " ++ showNumber E limit
  else if String.eqb code "object.base" then l ++ " must be of type object"
  else l ++ " is invalid".

Definition createError (code : string) (path : list string)
           (limit : Q) (valids : list value) : detail :=
  {| d_message := message_of code path limit valids;
     d_path := path; d_type := code |}.

Definition err (code : string) (path : list string) : detail :=
  createError code path 0 [].

(** [internals.finalize]: the default replaces an undefined value. *)
Definition finalize (s : schema) (v : value) (errors : list detail) : vresult :=
  {| r_value := if is_undefined v
                then match s_default s with Some d => d | None => v end
                else v;
     r_errors := errors |}.

(** [_valids.get(value)]: the first allowed value equal to [v]. *)
Definition valids_get (s : schema) (v : value) : option value :=
  find (strict_equal v) (s_valids s).

(** The type's [validate] method: the value and the base error, if any. *)
Definition base_validate (s : schema) (path : list string) (v : value)
  : option detail :=
  match s_type s with
  | TAny => None
  | TString =>
      match v with
      | VStr x =>
          if String.eqb x "" then
            if existsb (fun r => match r with
                                 | Min l => Qeq_bool l 0
                                 | Max _ => false
                                 end) (s_rules s)
            then None
            else Some (err "string.empty" path)
          else None
      | _ => Some (err "string.base" path)
      end
  | TNumber =>
      match v with
      | VNum q =>
          if orb (negb (Qle_bool q max_safe_integer))
                 (negb (Qle_bool (- max_safe_integer) q))
          then Some (err "number.unsafe" path)
          else None
      | _ => Some (err "number.base" path)
      end
  end.

(** A rule's [validate] method, on a value that passed [base_validate]. *)
Definition test_rule (s : schema) (path : list string) (r : rule) (v : value)
  : option detail :=
  match s_type s, v with
  | TString, VStr x =>
      let len := inject_Z (Z.of_nat (String.length x)) in
      match r with
      | Min l => if Qle_bool l len then None
                 else Some (createError "string.min" path l [])
      | Max l => if Qle_bool len l then None
                 else Some (createError "string.max" path l [])
      end
  | TNumber, VNum q =>
      match r with
      | Min l => if Qle_bool l q then None
                 else Some (createError "number.min" path l [])
      | Max l => if Qle_bool q l then None
                 else Some (createError "number.max" path l [])
      end
  | _, _ => None
  end.

(** [internals.rules]: the rules in order; the first failure ends the
    loop under [abortEarly]. *)
Fixpoint run_rules (p : prefs) (s : schema) (path : list string)
         (rs : list rule) (v : value) (errors : list detail) : vresult :=
  match rs with
  | [] => finalize s v errors
  | r :: rest =>
      match test_rule s path r v with
      | Some e =>
          if abortEarly p then finalize s v [e]
          else run_rules p s path rest v (errors ++ [e])
      | None => run_rules p s path rest v errors
      end
  end.

(** The type's [coerce] method, applied to a string when [convert] is
    set: only a number schema changes the value. *)
Definition coerce (p : prefs) (s : schema) (path : list string) (v : value)
  : value * option detail :=
  match s_type s, v with
  | TNumber, VStr x =>
      if convert p then
        match numberCoerce E x with
        | NotNumeric => (v, None)
        | Numeric q => (VNum q, None)
        | UnsafeNumeric q => (VNum q, Some (err "number.unsafe" path))
        end
      else (v, None)
  | _, _ => (v, None)
  end.

(** [Validator.validate] for a child schema, after the coercion: presence,
    allowed values, base type, rules. *)
Definition validate_coerced (p : prefs) (s : schema) (path : list string)
           (v : value) : vresult :=
  let pres := match s_presence s with Some x => x | None => Optional end in
  if is_undefined v then
    match pres with
    | Required => finalize s v [err "any.required" path]
    | _ => finalize s v []
    end
  else
    match pres with
    | Forbidden => finalize s v [err "any.unknown" path]
    | _ =>
        match valids_get s v with
        | Some m => finalize s (if convert p then m else v) []
        | None =>
            let errors :=
              if s_only s
              then [createError "any.only" path 0 (s_valids s)]
              else [] in
            if andb (s_only s) (abortEarly p) then finalize s v errors
            else
              match base_validate s path v with
              | Some e => finalize s v (errors ++ [e])
              | None => run_rules p s path (s_rules s) v errors
              end
        end
    end.

(** [Validator.validate] for a child schema: the coercion first; an error
    of the coercion ends the validation. *)
Definition validate_schema (p : prefs) (s : schema) (path : list string)
           (v0 : value) : vresult :=
  match coerce p s path v0 with
  | (v, Some e) => finalize s v [e]
  | (v, None) => validate_coerced p s path v
  end.

(** The outcome of the loop over the children of an object schema:
    an early return, or the value and the errors so far. *)
Inductive loop : Type :=
| Return (value : obj) (errors : list detail)
| Continue (value : obj) (errors : list detail).

(** The [for (const child of schema.$_terms.keys)] loop of the object
    type's [validate]. *)
Fixpoint validate_children (p : prefs) (cs : list (string * schema))
         (value : obj) (errors : list detail) : loop :=
  match cs with
  | [] => Continue value errors
  | (key, s) :: rest =>
      let item := get key value in
      let result := validate_schema p s [key] item in
      match r_errors result with
      | _ :: _ =>
          if abortEarly p then Return value (r_errors result)
          else
            let value' := if is_undefined (r_value result) then value
                          else set key (r_value result) value in
            validate_children p rest value' (errors ++ r_errors result)
      | [] =>
          if andb (is_undefined (r_value result)) (negb (is_undefined item))
          then validate_children p rest (delete key value) errors
          else if negb (is_undefined (r_value result))
          then validate_children p rest (set key (r_value result) value) errors
          else validate_children p rest value errors
      end
  end.

(** The keys of the value that no child names, in the order of
    [Object.keys]. *)
Definition unprocessed (cs : list (string * schema)) (value : obj) : list string :=
  filter (fun k => negb (existsb (String.eqb k) (map fst cs))) (keys value).

(** [internals.unknown]: strip the unknown keys, or report them. *)
Definition unknown (p : prefs) (ks : list string) (value : obj)
           (errors : list detail) : loop :=
  if stripUnknown p then
    Continue (fold_left (fun o k => delete k o) ks value) errors
  else if allowUnknown p then Continue value errors
  else
    match ks with
    | [] => Continue value errors
    | k :: _ =>
        if abortEarly p then Return value [err "object.unknown" [k]]
        else Continue value
               (errors ++ map (fun k' => err "object.unknown" [k']) ks)
    end.

(** [schema.validate(value, prefs)] for an object schema. *)
Definition validate (sch : object_schema) (body : value) (p : prefs) : vresult :=
  let body' :=
    match body with
    | VStr x => if convert p
                then match jsonObject E x with
                     | Some o => VObject o
                     | None => body
                     end
                else body
    | _ => body
    end in
  match body' with
  | VUndefined => mkResult VUndefined []
  | VObject value =>
      let ks := unprocessed (children sch) value in
      match validate_children p (children sch) value [] with
      | Return value' errors => mkResult (VObject value') errors
      | Continue value' errors =>
          match unknown p ks value' errors with
          | Return value'' errors' => mkResult (VObject value'') errors'
          | Continue value'' errors' => mkResult (VObject value'') errors'
          end
      end
  | _ => mkResult body' [err "object.base" []]
  end.

(** [error.message]: the distinct messages of the details, joined. *)
Fixpoint distinct (seen : list string) (l : list string) : list string :=
  match l with
  | [] => []
  | x :: rest =>
      if existsb (String.eqb x) seen then distinct seen rest
      else x :: distinct (x :: seen) rest
  end.

Definition error_message (errors : list detail) : string :=
  String.concat ". " (distinct [] (map d_message errors)).

End Validation.

(** The builders of the Joi API that [perkSchema] uses. *)
Module Joi.
Definition any : schema := mkSchema TAny None [] false [] None.
Definition number : schema := mkSchema TNumber None [] false [] None.
Definition forbidden : schema :=
  mkSchema TAny (Some Forbidden) [] false [] None.
Definition min (limit : Q) (s : schema) : schema :=
  mkSchema (s_type s) (s_presence s) (s_valids s) (s_only s)
           (s_rules s ++ [Min limit]) (s_default s).
Definition max (limit : Q) (s : schema) : schema :=
  mkSchema (s_type s) (s_presence s) (s_valids s) (s_only s)
           (s_rules s ++ [Max limit]) (s_default s).
Definition required (s : schema) : schema :=
  mkSchema (s_type s) (Some Required) (s_valids s) (s_only s)
           (s_rules s) (s_default s).
Definition allow (vs : list value) (s : schema) : schema :=
  mkSchema (s_type s) (s_presence s) (s_valids s ++ vs) (s_only s)
           (s_rules s) (s_default s).
Definition valid (vs : list value) (s : schema) : schema :=
  mkSchema (s_type s) (s_presence s) (s_valids s ++ vs) true
           (s_rules s) (s_default s).
Definition default (d : value) (s : schema) : schema :=
  mkSchema (s_type s) (s_presence s) (s_valids s) (s_only s)
           (s_rules s) (Some d).
Definition object (cs : list (string * schema)) : object_schema := mkObject cs.
Definition string : schema := mkSchema TString None [] false [] None.
End Joi.

(** Method chaining: [s |> f] is [s.f]. *)
Notation "s |> f" := (f s) (at level 45, left associativity, only parsing).

(* ================================================================== *)
(** * perkController.js *)
(* ================================================================== *)

(** validation schema for creating/updating a perk *)
Definition perkSchema : object_schema :=
  Joi.object [
    ("title", Joi.string |> Joi.min 2 |> Joi.required);
    ("description", Joi.string |> Joi.allow [VStr ""]);
    ("category",
      Joi.string
        |> Joi.valid [VStr "food"; VStr "tech"; VStr "travel"; VStr "fitness";
                      VStr "other"]
        |> Joi.default (VStr "other"));
    ("discountPercent",
      Joi.number |> Joi.min 0 |> Joi.max 100 |> Joi.default (VNum 0));
    ("merchant", Joi.string |> Joi.allow [VStr ""]);
    ("ccreatedBy", Joi.forbidden)
  ].

(** [createPerk] validates with Joi's defaults, [updatePerk] with
    [{ abortEarly: false, stripUnknown: true, convert: true }]. *)
Definition createPrefs : prefs := defaults.

Definition updatePrefs : prefs :=
  {| abortEarly := false; allowUnknown := allowUnknown defaults;
     convert := true; stripUnknown := true |}.

(** ** Exceptions *)

Inductive result (A : Type) : Type :=
| Ok (a : A)
| Throw (e : error).

Arguments Ok {A} a.
Arguments Throw {A} e.

Definition bind {A B : Type} (c : result A) (k : A -> result B) : result B :=
  match c with
  | Ok a => k a
  | Throw e => Throw e
  end.

Notation "x <- c ;; k" := (bind c (fun x => k))
  (at level 61, c at next level, right associativity).

(** [try { body } catch (err) { handler }]. *)
Definition try_catch {A : Type} (body : result A) (handler : error -> A) : A :=
  match body with
  | Ok a => a
  | Throw e => handler e
  end.

(** ** Requests and responses *)

Record request : Type := mkRequest {
  query_title : option string;         (* [req.query.title] *)
  query_search : option string;        (* [req.query.search] *)
  query_merchant : option string;      (* [req.query.merchant] *)
  params_id : string;                  (* [req.params.id] *)
  body : value;                        (* [req.body] *)
  user : option string                 (* [req.user], by its [id] *)
}.

Inductive payload : Type :=
| Message (message : string)           (* [{ message }] *)
| OnePerk (perk : obj)                 (* [{ perk }] *)
| ManyPerks (perks : list obj)         (* [{ perks }] *)
| PerkArray (perks : list obj)         (* the bare array *)
| Acknowledge.                         (* [{ ok: true }] *)

Inductive outcome : Type :=
| Respond (status : Z) (json : payload)
| Next (err : error).

(** ** The store *)

(** A filter document: equality with a string, or [$regex] with
    [$options]. *)
Inductive cond : Type :=
| Equals (field : string) (s : string)
| Regex (field : string) (pattern options : string).

Definition createdAt (d : obj) : option Z :=
  match get "createdAt" d with
  | VDate t => Some t
  | _ => None
  end.

(** [a] may stand before [b] in [sort({ createdAt: -1 })]: it is not older;
    a document without a creation time sorts last. *)
Definition newer_eq (a b : obj) : bool :=
  match createdAt a, createdAt b with
  | Some x, Some y => Z.leb y x
  | Some _, None => true
  | None, Some _ => false
  | None, None => true
  end.

Fixpoint insert_desc (d : obj) (l : list obj) : list obj :=
  match l with
  | [] => [d]
  | x :: rest => if newer_eq d x then d :: l else x :: insert_desc d rest
  end.

Fixpoint sort_desc (l : list obj) : list obj :=
  match l with
  | [] => []
  | d :: rest => insert_desc d (sort_desc rest)
  end.

Definition has_id (hex : string) (d : obj) : bool :=
  match get "_id" d with
  | VObjectId x => String.eqb x hex
  | _ => false
  end.

Fixpoint replace_first (f : obj -> bool) (d : obj) (l : list obj) : list obj :=
  match l with
  | [] => []
  | x :: rest => if f x then d :: rest else x :: replace_first f d rest
  end.

Fixpoint remove_first (f : obj -> bool) (l : list obj) : list obj :=
  match l with
  | [] => []
  | x :: rest => if f x then rest else x :: remove_first f rest
  end.

Section Store.

Variable E : Env.

Definition matches (d : obj) (c : cond) : bool :=
  match c with
  | Equals field s =>
      match get field d with
      | VStr x => String.eqb x s
      | _ => false
      end
  | Regex field pattern options =>
      match get field d with
      | VStr x => regexTest E pattern options x
      | _ => false
      end
  end.

(** Modelled from the spec: models/Perk.js and the store driver are not
    part of the sources. [Perk.find(query)] returns the documents that
    satisfy every condition of the filter ("all perks with that exact
    title", "exact match"). *)
Definition Perk_find (st : store) (query : list cond) : list obj :=
  filter (fun d => forallb (matches d) query) (perks st).

(** Modelled from the spec: [.sort({ createdAt: -1 })], "newest first". *)
Definition sort_createdAt_desc (l : list obj) : list obj := sort_desc l.

(** Modelled from the spec: [Perk.findById(id)] gives the perk with that
    identifier, or null ("404 if absent"); the driver casts the string to
    an ObjectId first and throws a CastError when it is not one. *)
Definition Perk_findById (st : store) (id : string) : result (option obj) :=
  if isValid E id
  then Ok (find (has_id (castId E id)) (perks st))
  else Throw CastError.

(** Modelled from the spec: [Perk.create(doc)] inserts the document with
    a fresh identifier and its creation time ("createdAt: timestamp, set
    at creation"), unless the store rejects it (a duplicate key, a schema
    validator). *)
Definition Perk_create (st : store) (doc : obj) : result (obj * store) :=
  match insertCheck E st doc with
  | Some e => Throw e
  | None =>
      let d := set "createdAt" (VDate (now E st))
                 (set "_id" (VObjectId (newId E st)) doc) in
      Ok (d, mkStore (perks st ++ [d]) (users st))
  end.

(** Modelled from the spec: [Perk.findByIdAndUpdate(id, { $set: value },
    { new: true, runValidators: true })] "applies only the validated
    field set as a partial update, re-running the store's own field
    validators", and gives the updated document, or null when there is
    none. *)
Definition Perk_findByIdAndUpdate (st : store) (id : string) (value : obj)
  : result (option obj * store) :=
  if isValid E id then
    match updateCheck E st id value with
    | Some e => Throw e
    | None =>
        match find (has_id (castId E id)) (perks st) with
        | None => Ok (None, st)
        | Some old =>
            let d := spread old value in
            Ok (Some d,
                mkStore (replace_first (has_id (castId E id)) d (perks st))
                        (users st))
        end
    end
  else Throw CastError.

(** Modelled from the spec: [Perk.findByIdAndDelete(id)] removes the perk
    and gives it back, or gives null ("404 if absent"). *)
Definition Perk_findByIdAndDelete (st : store) (id : string)
  : result (option obj * store) :=
  if isValid E id then
    match find (has_id (castId E id)) (perks st) with
    | None => Ok (None, st)
    | Some old =>
        Ok (Some old,
            mkStore (remove_first (has_id (castId E id)) (perks st)) (users st))
    end
  else Throw CastError.

(** Modelled from the spec: the queries on the [User] model.
    [User.find({ _id: { $in: ids } })], [User.findOne({ email })] and
    [User.findOne({ name })]. *)
Definition User_find_in (st : store) (ids : list string) : list User :=
  filter (fun u => existsb (fun s => String.eqb (castId E s) (user_id u)) ids)
         (users st).

Definition User_findOne_email (st : store) (email : string) : option User :=
  find (fun u => match user_email u with
                 | Some x => String.eqb x email
                 | None => false
                 end) (users st).

Definition User_findOne_name (st : store) (name : string) : option User :=
  find (fun u => String.eqb (user_name u) name) (users st).

End Store.

(** ** Sets and maps of the creator resolution *)

(** [set.add(x)] on a [Set] of strings, in insertion order. *)
Definition set_add (x : string) (l : list string) : list string :=
  if existsb (String.eqb x) l then l else l ++ [x].

(** A [Map] from strings to user records, in insertion order. *)
Definition user_map : Type := list (string * User).

Fixpoint map_set (k : string) (u : User) (m : user_map) : user_map :=
  match m with
  | [] => [(k, u)]
  | (k', u') :: rest =>
      if String.eqb k k' then (k', u) :: rest else (k', u') :: map_set k u rest
  end.

Fixpoint map_get (k : string) (m : user_map) : option User :=
  match m with
  | [] => None
  | (k', u) :: rest => if String.eqb k k' then Some u else map_get k rest
  end.

Definition map_has (k : string) (m : user_map) : bool :=
  match map_get k m with
  | Some _ => true
  | None => false
  end.

(** [new Map(entries)]. *)
Definition Map_of (entries : list (string * User)) : user_map :=
  fold_left (fun m kv => map_set (fst kv) (snd kv) m) entries [].

(** A user record as a JavaScript value: [{ _id, name, email }]. *)
Definition user_value (u : User) : value :=
  VObject ([("_id", VObjectId (user_id u)); ("name", VStr (user_name u))]
           ++ match user_email u with
              | Some e => [("email", VStr e)]
              | None => []
              end).

(** [m.get(k)] as a value: the record, or [undefined]. *)
Definition map_get_value (k : string) (m : user_map) : value :=
  match map_get k m with
  | Some u => user_value u
  | None => VUndefined
  end.

(** [a || b]. *)
Definition js_or (a b : value) : value := if truthy a then a else b.

(** [err.code === 11000]. *)
Definition is_duplicate_key (err : error) : bool :=
  strict_equal (err_code err) (VNum 11000).

(** ** The handlers *)

Section Handlers.

Variable E : Env.

(** [String(v)]. *)
Definition js_String (v : value) : string :=
  match v with
  | VStr s => s
  | VObjectId hex => hex
  | _ => otherToString E v
  end.

(** Filter perks by exact title match if title query parameter is
    provided *)
Definition filterPerks (st : store) (req : request) : outcome * store :=
  try_catch
    (let title := match query_title req with
                  | Some t => VStr t
                  | None => VUndefined
                  end in
     if truthy title then
       let perks := sort_createdAt_desc
                      (Perk_find E st [Equals "title" (js_String title)]) in
       Ok (Respond 200 (PerkArray perks), st)
     else
       Ok (Respond 400 (Message "Title query parameter is required"), st))
    (fun err => (Next err, st)).

(** get all perks *)
Definition getAllPerks (st : store) (req : request) : outcome * store :=
  try_catch
    (let id := match user req with
               | Some id => VStr id
               | None => VUndefined
               end in
     if negb (truthy id) then
       Ok (Respond 401 (Message "Unauthorized"), st)
     else
       let perks := sort_createdAt_desc
                      (Perk_find E st [Equals "createdBy" (js_String id)]) in
       Ok (Respond 200 (ManyPerks perks), st))
    (fun err => (Next err, st)).

(** The first loop of the creator resolution: the [createdBy] values,
    divided into [idSet] and [stringKeys]. *)
Definition collect_keys (perks : list obj) : list string * list string :=
  fold_left
    (fun sets p =>
       if negb (truthy (get "createdBy" p)) then sets
       else
         let cb := js_String (get "createdBy" p) in
         if isValid E cb then (set_add cb (fst sets), snd sets)
         else (fst sets, set_add cb (snd sets)))
    perks ([], []).

(** The lookup of one string key: by email when it contains an [@], by
    name otherwise. *)
Definition lookup_key (st : store) (key : string) : option User :=
  if includes_char "@"%char key
  then User_findOne_email st (toLowerCase key)
  else User_findOne_name st key.

(** [for (const u of resolved) if (u) usersByString.push(u)]. *)
Fixpoint present {A : Type} (l : list (option A)) : list A :=
  match l with
  | [] => []
  | Some u :: rest => u :: present rest
  | None :: rest => present rest
  end.

(** [u.email?.toLowerCase() || u.name]. *)
Definition key_of_user (u : User) : string :=
  match user_email u with
  | Some e => if String.eqb (toLowerCase e) "" then user_name u
              else toLowerCase e
  | None => user_name u
  end.

(** The body of the second loop: the creator of one perk. *)
Definition attach (userMapById userMapByKey : user_map) (p : obj) : obj :=
  if negb (truthy (get "createdBy" p)) then p
  else
    let cb := js_String (get "createdBy" p) in
    if map_has cb userMapById then
      set "createdBy" (map_get_value cb userMapById) p
    else if orb (map_has cb userMapByKey)
                (map_has (toLowerCase cb) userMapByKey) then
      set "createdBy"
          (js_or (map_get_value cb userMapByKey)
                 (map_get_value (toLowerCase cb) userMapByKey)) p
    else
      set "createdBy" VNull p.

Definition resolve_creators (st : store) (perks : list obj) : list obj :=
  let (idSet, stringKeys) := collect_keys perks in
  let usersById :=
    if Nat.ltb 0 (length idSet) then User_find_in E st idSet else [] in
  let usersByString :=
    if Nat.ltb 0 (length stringKeys)
    then present (map (lookup_key st) stringKeys)
    else [] in
  let userMapById := Map_of (map (fun u => (user_id u, u)) usersById) in
  let userMapByKey := Map_of (map (fun u => (key_of_user u, u)) usersByString) in
  map (attach userMapById userMapByKey) perks.

(** Get all perks in the database (not filtered by user) with optional
    search and filter *)
Definition getAllPerksPublic (st : store) (req : request) : outcome * store :=
  try_catch
    (let query := [] in
     let query :=
       match query_search req with
       | Some search =>
           if andb (truthy (VStr search)) (truthy (VStr (trim search)))
           then query ++ [Regex "title" (trim search) "i"]
           else query
       | None => query
       end in
     let query :=
       match query_merchant req with
       | Some merchant =>
           if andb (truthy (VStr merchant)) (truthy (VStr (trim merchant)))
           then query ++ [Equals "merchant" (trim merchant)]
           else query
       | None => query
       end in
     let perks := sort_createdAt_desc (Perk_find E st query) in
     let perks :=
       if Nat.ltb 0 (length perks) then resolve_creators st perks else perks in
     Ok (Respond 200 (ManyPerks perks), st))
    (fun err => (Next err, st)).

(** Get a single perk by ID *)
Definition getPerk (st : store) (req : request) : outcome * store :=
  try_catch
    (perk <- Perk_findById E st (params_id req) ;;
     match perk with
     | None => Ok (Respond 404 (Message "Perk not found"), st)
     | Some p => Ok (Respond 200 (OnePerk p), st)
     end)
    (fun err => (Next err, st)).

(** Create a new perk *)
Definition createPerk (st : store) (req : request) : outcome * store :=
  try_catch
    (let r := validate E perkSchema (body req) createPrefs in
     match r_errors r with
     | _ :: _ =>
         Ok (Respond 400 (Message (error_message (r_errors r))), st)
     | [] =>
         id <- match user req with
               | Some id => Ok id
               | None => Throw TypeError
               end ;;
         created <- Perk_create E st
                      (spread (own_props (r_value r)) [("createdBy", VStr id)]) ;;
         Ok (Respond 201 (OnePerk (fst created)), snd created)
     end)
    (fun err =>
       if is_duplicate_key err
       then (Respond 409 (Message "Duplicate perk for this merchant"), st)
       else (Next err, st)).

(** [existingPerk.toObject()]. *)
Definition toObject (d : obj) : obj := d.

(** Update an existing perk by ID *)
Definition updatePerk (st : store) (req : request) : outcome * store :=
  try_catch
    (existingPerk <- Perk_findById E st (params_id req) ;;
     match existingPerk with
     | None => Ok (Respond 404 (Message "Perk not found"), st)
     | Some existing =>
         let updatedData := spread (toObject existing) (own_props (body req)) in
         let r := validate E perkSchema (VObject updatedData) updatePrefs in
         match r_errors r with
         | _ :: _ =>
             Ok (Respond 400 (Message (error_message (r_errors r))), st)
         | [] =>
             updated <- Perk_findByIdAndUpdate E st (params_id req)
                          (own_props (r_value r)) ;;
             match fst updated with
             | None => Ok (Respond 404 (Message "Perk not found"), snd updated)
             | Some doc => Ok (Respond 200 (OnePerk doc), snd updated)
             end
         end
     end)
    (fun err => (Next err, st)).

(** Delete a perk by ID *)
Definition deletePerk (st : store) (req : request) : outcome * store :=
  try_catch
    (deleted <- Perk_findByIdAndDelete E st (params_id req) ;;
     match fst deleted with
     | None => Ok (Respond 404 (Message "Perk not found"), snd deleted)
     | Some _ => Ok (Respond 200 Acknowledge, snd deleted)
     end)
    (fun err => (Next err, st)).

End Handlers.

(* ================================================================== *)
(** * A reference environment *)
(* ================================================================== *)

(** An instance of [Env] on which the handlers can be run: identifiers are
    24 hexadecimal digits, the store refuses a second perk with the title
    and merchant of an existing one, and accepts every update. *)

Definition is_hex_digit (c : ascii) : bool :=
  let n := nat_of_ascii c in
  orb (andb (Nat.leb 48 n) (Nat.leb n 57))
      (orb (andb (Nat.leb 65 n) (Nat.leb n 70))
           (andb (Nat.leb 97 n) (Nat.leb n 102))).

Definition is_hex24 (s : string) : bool :=
  andb (Nat.eqb (String.length s) 24)
       (forallb is_hex_digit (list_ascii_of_string s)).

Fixpoint zeros (n : nat) : string :=
  match n with
  | O => EmptyString
  | S m => String "0" (zeros m)
  end.

Definition pad24 (s : string) : string := zeros (24 - String.length s) ++ s.

Fixpoint prefix_at (p s : string) : bool :=
  match p, s with
  | EmptyString, _ => true
  | String a p', String b s' => andb (Ascii.eqb a b) (prefix_at p' s')
  | String _ _, EmptyString => false
  end.

Fixpoint contains (p s : string) : bool :=
  orb (prefix_at p s)
      match s with
      | EmptyString => false
      | String _ s' => contains p s'
      end.

Definition same_key (a b : obj) : bool :=
  andb (strict_equal (get "title" a) (get "title" b))
       (strict_equal (get "merchant" a) (get "merchant" b)).

Definition duplicateKey : error := mkError "MongoServerError" (VNum 11000).

Definition refEnv : Env :=
  {| numberCoerce := fun _ => NotNumeric;
     jsonObject := fun _ => None;
     showNumber := fun q => NilEmpty.string_of_int (Z.to_int (Qnum q));
     otherToString := fun _ => "[object Object]";
     regexTest := fun pattern options subject =>
                    if String.eqb options "i"
                    then contains (toLowerCase pattern) (toLowerCase subject)
                    else contains pattern subject;
     isValid := is_hex24;
     castId := toLowerCase;
     newId := fun st => pad24 (index_key (S (length (perks st))));
     now := fun st => Z.of_nat (length (perks st));
     insertCheck := fun st doc =>
                      if existsb (same_key doc) (perks st)
                      then Some duplicateKey else None;
     updateCheck := fun _ _ _ => None |}.

(* ================================================================== *)
(** * Notions used in the statements *)
(* ================================================================== *)

(** The preferences [p] with [abortEarly] set to [b]. *)
Definition with_abortEarly (b : bool) (p : prefs) : prefs :=
  {| abortEarly := b; allowUnknown := allowUnknown p; convert := convert p;
     stripUnknown := stripUnknown p |}.

Section LoopSpec.

Variable E : Env.

(** The violations of one field: what the field's own schema reports on
    the field of [value]. *)
Definition child_result (p : prefs) (value : obj) (c : string * schema) : vresult :=
  validate_schema E p (snd c) [fst c] (get (fst c) value).

Definition child_errors (p : prefs) (value : obj) (c : string * schema)
  : list detail :=
  r_errors (child_result p value c).

(** What one round of the loop over the children does to the value. *)
Definition store_result (key : string) (item : value) (r : vresult) (value : obj)
  : obj :=
  match r_errors r with
  | _ :: _ => if is_undefined (r_value r) then value
              else set key (r_value r) value
  | [] => if andb (is_undefined (r_value r)) (negb (is_undefined item))
          then delete key value
          else if negb (is_undefined (r_value r))
          then set key (r_value r) value
          else value
  end.

(** The value and the errors of a loop that runs to its end. *)
Fixpoint apply_children (p : prefs) (cs : list (string * schema)) (value : obj)
  : obj :=
  match cs with
  | [] => value
  | c :: rest =>
      apply_children p rest
        (store_result (fst c) (get (fst c) value) (child_result p value c) value)
  end.

Fixpoint errors_children (p : prefs) (cs : list (string * schema)) (value : obj)
  : list detail :=
  match cs with
  | [] => []
  | c :: rest =>
      child_errors p value c
        ++ errors_children p rest
             (store_result (fst c) (get (fst c) value) (child_result p value c)
                           value)
  end.

(** The rules of a schema that a value fails. *)
Definition failing (s : schema) (path : list string) (rs : list rule) (v : value)
  : list detail :=
  flat_map (fun r => match test_rule E s path r v with
                     | Some e => [e]
                     | None => []
                     end) rs.

End LoopSpec.

(** The five categories of a perk, and the fields of [perkSchema] under
    the names used below. *)
Definition categories : list value :=
  [VStr "food"; VStr "tech"; VStr "travel"; VStr "fitness"; VStr "other"].

Definition categorySchema : schema :=
  Joi.string |> Joi.valid categories |> Joi.default (VStr "other").

Definition discountSchema : schema :=
  Joi.number |> Joi.min 0 |> Joi.max 100 |> Joi.default (VNum 0).

Definition is_string (v : value) : Prop := exists x, v = VStr x.

(** An object in which no key occurs twice. *)
Fixpoint unique (l : list string) : bool :=
  match l with
  | [] => true
  | x :: rest => andb (negb (existsb (String.eqb x) rest)) (unique rest)
  end.

Definition unique_keys (o : obj) : bool := unique (keys o).

(** The record of a user of the store, as the creator resolution attaches
    it to a perk. *)
Definition user_record (st : store) (v : value) : Prop :=
  exists u, In u (users st) /\ v = user_value u.

(** ** Sample data *)

Definition alice : User :=
  mkUser "aaaaaaaaaaaaaaaaaaaaaaaa" "Alice" (Some "alice@example.com").

Definition gymId : string := "000000000000000000000001".

(** A perk whose creator is the legacy user name ["Alice"]. *)
Definition gymPerk : obj :=
  [("_id", VObjectId gymId); ("title", VStr "Gym"); ("category", VStr "fitness");
   ("discountPercent", VNum 10); ("merchant", VStr "Acme");
   ("createdBy", VStr "Alice"); ("createdAt", VDate 5)].

Definition sampleStore : store := mkStore [gymPerk] [alice].

(** A request without parameters, and the requests used below. *)
Definition listRequest : request := mkRequest None None None "" VUndefined None.

Definition titleRequest (title : string) : request :=
  mkRequest (Some title) None None "" VUndefined None.

Definition idRequest (id : string) (payload : value) : request :=
  mkRequest None None None id payload None.

Definition createRequest (payload : value) : request :=
  mkRequest None None None "" payload (Some (user_id alice)).

(** A store whose only perk has the empty string as its creator. *)
Definition blankPerk : obj :=
  [("_id", VObjectId "000000000000000000000002"); ("title", VStr "Spa");
   ("category", VStr "other"); ("discountPercent", VNum 0);
   ("createdBy", VStr ""); ("createdAt", VDate 7)].

Definition blankStore : store := mkStore [blankPerk] [alice].

(** A payload with a discount of 150, and one with three bad fields. *)
Definition tooHigh : obj := [("title", VStr "ab"); ("discountPercent", VNum 150)].

Definition threeBad : obj :=
  [("title", VStr "a"); ("category", VStr "cars"); ("discountPercent", VNum 500)].

(** ** What the schema accepts *)

(** The two other shapes of field of [perkSchema]. *)
Definition titleSchema : schema := Joi.string |> Joi.min 2 |> Joi.required.

Definition textSchema : schema := Joi.string |> Joi.allow [VStr ""].

(** The values of each field that the data model admits: a title of two
    characters or more; a text or nothing; one of the five categories or
    nothing; a number between 0 and 100, a string that converts to one when
    conversion is on, or nothing. *)
Definition title_ok (v : value) : Prop :=
  exists x, v = VStr x /\ (2 <= String.length x)%nat.

Definition text_ok (v : value) : Prop := v = VUndefined \/ is_string v.

Definition category_ok (v : value) : Prop := v = VUndefined \/ In v categories.

Definition discount_ok (E : Env) (p : prefs) (v : value) : Prop :=
  v = VUndefined \/
  (exists q, v = VNum q /\ 0 <= q /\ q <= 100) \/
  (convert p = true /\
   exists x q, v = VStr x /\ numberCoerce E x = Numeric q /\ 0 <= q /\ q <= 100).

(** The keys of the payload are no obstacle: unknown keys are stripped or
    allowed, or there is none. *)
Definition keys_ok (p : prefs) (o : obj) : Prop :=
  stripUnknown p = true \/ allowUnknown p = true \/
  forall k, In k (keys o) -> In k (map fst (children perkSchema)).

Definition acceptable (E : Env) (p : prefs) (o : obj) : Prop :=
  title_ok (get "title" o) /\
  text_ok (get "description" o) /\
  category_ok (get "category" o) /\
  discount_ok E p (get "discountPercent" o) /\
  text_ok (get "merchant" o) /\
  get "ccreatedBy" o = VUndefined /\
  keys_ok p o.

(** ** The identifiers of a collection *)

(** No two perks of the list carry the same [_id]. *)
Fixpoint distinct_ids (l : list obj) : bool :=
  match l with
  | [] => true
  | d :: rest =>
      andb (match get "_id" d with
            | VObjectId hex => negb (existsb (has_id hex) rest)
            | _ => true
            end)
           (distinct_ids rest)
  end.

(** ** The public list *)

(** The stored perks that the public list selects: the title matches the
    trimmed search, without regard to case, and the merchant is the trimmed
    merchant; a filter that is absent or blank selects everything. *)
Definition selected (E : Env) (req : request) (d : obj) : bool :=
  andb
    (match query_search req with
     | Some search =>
         if String.eqb (trim search) "" then true
         else match get "title" d with
              | VStr x => regexTest E (trim search) "i" x
              | _ => false
              end
     | None => true
     end)
    (match query_merchant req with
     | Some merchant =>
         if String.eqb (trim merchant) "" then true
         else match get "merchant" d with
              | VStr x => String.eqb x (trim merchant)
              | _ => false
              end
     | None => true
     end).

(** The key under which the creator of a stored perk is looked up. *)
Definition creator_key (E : Env) (p0 : obj) : string :=
  js_String E (get "createdBy" p0).

(** A listed perk [p] against the stored perk [p0] it comes from: a perk
    without a creator is listed as it is; otherwise [createdBy] alone is
    replaced, by null or by the record of a user whose identifier, or whose
    lower-cased email (name, when there is no email), is the key or its
    lower-cased form. *)
Definition resolved_from (E : Env) (st : store) (p0 p : obj) : Prop :=
  if truthy (get "createdBy" p0) then
    exists v,
      p = set "createdBy" v p0 /\
      (v = VNull \/
       exists u, In u (users st) /\ v = user_value u /\
                 (user_id u = creator_key E p0 \/
                  key_of_user u = creator_key E p0 \/
                  key_of_user u = toLowerCase (creator_key E p0)))
  else p = p0.

(** ** More sample data *)

(** Two more perks of Alice: one stored with her identifier, one with her
    email in mixed case. *)
Definition ownedPerk : obj :=
  [("_id", VObjectId "000000000000000000000003"); ("title", VStr "Coffee Club");
   ("category", VStr "food"); ("discountPercent", VNum 15);
   ("merchant", VStr "Beans"); ("createdBy", VObjectId (user_id alice));
   ("createdAt", VDate 9)].

Definition mailPerk : obj :=
  [("_id", VObjectId "000000000000000000000004"); ("title", VStr "Rail Card");
   ("category", VStr "travel"); ("discountPercent", VNum 30);
   ("merchant", VStr "Rails"); ("createdBy", VStr "Alice@Example.com");
   ("createdAt", VDate 8)].

Definition aliceStore : store := mkStore [gymPerk; mailPerk; ownedPerk] [alice].

(** A payload without a title, one that names the owner, and one that
    changes the title and tries to change the owner. *)
Definition untitled : obj := [("discountPercent", VNum 500)].

Definition ownerPayload : obj := [("title", VStr "Spa"); ("createdBy", VStr "evil")].

Definition renamePayload : obj := [("title", VStr "Gym Plus"); ("createdBy", VStr "evil")].

(** A user without an email, and a perk stored with his name. *)
Definition bob : User := mkUser "bbbbbbbbbbbbbbbbbbbbbbbb" "Bob" None.

Definition bobPerk : obj :=
  [("_id", VObjectId "000000000000000000000007"); ("title", VStr "Bike Shop");
   ("category", VStr "travel"); ("discountPercent", VNum 12);
   ("merchant", VStr "Wheels"); ("createdBy", VStr "Bob");
   ("createdAt", VDate 4)].

Definition bobStore : store := mkStore [bobPerk; gymPerk] [alice; bob].

(** A payload with a title alone, and what validation makes of it. *)
Definition spaPayload : obj := [("title", VStr "Spa")].

Definition spaValidated : obj :=
  [("title", VStr "Spa"); ("category", VStr "other");
   ("discountPercent", VNum 0)].

(** A no-break space (U+00A0), an email that begins with a capital E acute
    (U+00C9), and a store with a user and a perk that carry that email as
    it is. *)
Definition nbsp : string := String (ascii_of_nat 160) EmptyString.

Definition accentedMail : string := String (ascii_of_nat 201) "@x.com".

Definition erin : User :=
  mkUser "eeeeeeeeeeeeeeeeeeeeeeee" "Erin" (Some accentedMail).

Definition erinPerk : obj :=
  [("_id", VObjectId "000000000000000000000006"); ("title", VStr "Bakery");
   ("category", VStr "food"); ("discountPercent", VNum 5);
   ("merchant", VStr "Acme"); ("createdBy", VStr accentedMail);
   ("createdAt", VDate 2)].

Definition erinStore : store := mkStore [erinPerk; gymPerk] [erin; alice].

Definition searchRequest (search : string) : request :=
  mkRequest None (Some search) None "" VUndefined None.

Definition merchantRequest (merchant : string) : request :=
  mkRequest None None (Some merchant) "" VUndefined None.

(** ** The update *)

(** How [updatePerk] leaves the field [k] of the stored perk [existing] in
    the updated perk [doc], when the payload does not carry [k]: as it was;
    or, for a perk stored without a category, the default ["other"]; or,
    for the discount, the default 0 when the perk was stored without one,
    and the number for a discount stored as a string that converts. *)
Definition written_as (E : Env) (existing doc : obj) (k : string) : Prop :=
  get k doc = get k existing \/
  (k = "category" /\ get k existing = VUndefined /\ get k doc = VStr "other") \/
  (k = "discountPercent" /\
   ((get k existing = VUndefined /\ get k doc = VNum 0) \/
    exists x q, get k existing = VStr x /\ numberCoerce E x = Numeric q /\
                get k doc = VNum q)).

(** A perk stored without a category, the update [{ discountPercent: 50 }]
    and the perk after that update. *)
Definition cinemaId : string := "000000000000000000000005".

Definition cinemaPerk : obj :=
  [("_id", VObjectId cinemaId); ("title", VStr "Cinema");
   ("discountPercent", VNum 20); ("merchant", VStr "Odeon");
   ("createdBy", VObjectId (user_id alice)); ("createdAt", VDate 3)].

Definition cinemaStore : store := mkStore [cinemaPerk] [alice].

Definition halfPrice : obj := [("discountPercent", VNum 50)].

Definition cinemaUpdated : obj :=
  [("_id", VObjectId cinemaId); ("title", VStr "Cinema");
   ("discountPercent", VNum 50); ("merchant", VStr "Odeon");
   ("createdBy", VObjectId (user_id alice)); ("createdAt", VDate 3);
   ("category", VStr "other")].

(* ================================================================== *)
(** * Facts about objects *)
(* ================================================================== *)

Section ObjectFacts.

Lemma lookup_set_eq k v o : lookup k (set k v o) = Some v.
Proof.
  induction o as [|[k' v'] rest IH]; simpl.
  - now rewrite String.eqb_refl.
  - destruct (String.eqb k k') eqn:E; simpl; rewrite E; auto.
Qed.

Lemma lookup_set_ne k k' v o : k <> k' -> lookup k (set k' v o) = lookup k o.
Proof.
  intros Hne. induction o as [|[k2 v2] rest IH]; simpl.
  - destruct (String.eqb_spec k k'); congruence.
  - destruct (String.eqb_spec k' k2) as [->|Hk]; simpl.
    + destruct (String.eqb_spec k k2); congruence.
    + destruct (String.eqb_spec k k2); auto.
Qed.

Lemma lookup_delete_eq k o : lookup k (delete k o) = None.
Proof.
  induction o as [|[k' v'] rest IH]; simpl; auto.
  destruct (String.eqb k k') eqn:E; simpl; try rewrite E; auto.
Qed.

Lemma lookup_delete_ne k k' o : k <> k' -> lookup k (delete k' o) = lookup k o.
Proof.
  intros Hne. induction o as [|[k2 v2] rest IH]; simpl; auto.
  destruct (String.eqb_spec k' k2) as [->|Hk]; simpl.
  - destruct (String.eqb_spec k k2); congruence.
  - destruct (String.eqb_spec k k2); auto.
Qed.

Lemma get_set_eq k v o : get k (set k v o) = v.
Proof. unfold get. now rewrite lookup_set_eq. Qed.

Lemma get_set_ne k k' v o : k <> k' -> get k (set k' v o) = get k o.
Proof. intros. unfold get. now rewrite lookup_set_ne. Qed.

Lemma get_delete_eq k o : get k (delete k o) = VUndefined.
Proof. unfold get. now rewrite lookup_delete_eq. Qed.

Lemma get_delete_ne k k' o : k <> k' -> get k (delete k' o) = get k o.
Proof. intros. unfold get. now rewrite lookup_delete_ne. Qed.

Lemma lookup_In_keys k o v : lookup k o = Some v -> In k (keys o).
Proof.
  induction o as [|[k' v'] rest IH]; simpl; [discriminate|].
  destruct (String.eqb_spec k k'); auto.
Qed.

Lemma lookup_None_keys k o : lookup k o = None <-> ~ In k (keys o).
Proof.
  induction o as [|[k' v'] rest IH]; simpl; [tauto|].
  destruct (String.eqb_spec k k') as [->|Hne].
  - split; [discriminate | tauto].
  - rewrite IH. split; intros H; [intros [?|?]; congruence | tauto].
Qed.

Lemma keys_set_incl k v o x : In x (keys (set k v o)) -> x = k \/ In x (keys o).
Proof.
  induction o as [|[k' v'] rest IH]; simpl.
  - intros [<-|[]]; auto.
  - destruct (String.eqb_spec k k') as [->|Hne]; simpl; intros [?|?]; auto.
    destruct (IH H); auto.
Qed.

Lemma keys_delete k o x : In x (keys (delete k o)) <-> x <> k /\ In x (keys o).
Proof.
  induction o as [|[k' v'] rest IH]; simpl; [tauto|].
  destruct (String.eqb_spec k k') as [->|Hne]; simpl; rewrite IH.
  - split; [tauto|]. intros [Hx [->|H]]; tauto.
  - split.
    + intros [<-|[? ?]]; auto.
    + intros [Hx [?|H]]; auto.
Qed.

Lemma lookup_app k a b :
  lookup k (a ++ b) =
    match lookup k a with
    | Some v => Some v
    | None => lookup k b
    end.
Proof.
  induction a as [|[k' v'] rest IH]; simpl; auto.
  destruct (String.eqb k k'); auto.
Qed.

(** What [{ ...a, ...b }] holds: the properties of [b] (the last
    occurrence of a key wins), then those of [a]. *)
Lemma lookup_spread k a b :
  lookup k (spread a b) =
    match lookup k (rev b) with
    | Some v => Some v
    | None => lookup k a
    end.
Proof.
  unfold spread. revert a.
  induction b as [|[k' v'] rest IH]; intros a; simpl; auto.
  rewrite IH, lookup_app. destruct (lookup k (rev rest)); auto.
  simpl. destruct (String.eqb_spec k k') as [->|Hne].
  - apply lookup_set_eq.
  - now apply lookup_set_ne.
Qed.

Lemma NoDup_keys_set k v o : NoDup (keys o) -> NoDup (keys (set k v o)).
Proof.
  induction o as [|[k' v'] rest IH]; simpl; intros Hnd.
  - constructor; [tauto | constructor].
  - inversion Hnd as [|? ? Hnotin Hnd']; subst.
    destruct (String.eqb_spec k k') as [->|Hne]; simpl.
    + now constructor.
    + constructor; auto. intros Hin.
      destruct (keys_set_incl _ _ _ _ Hin); congruence.
Qed.

Lemma NoDup_keys_delete k o : NoDup (keys o) -> NoDup (keys (delete k o)).
Proof.
  induction o as [|[k' v'] rest IH]; simpl; intros Hnd; auto.
  inversion Hnd as [|? ? Hnotin Hnd']; subst.
  destruct (String.eqb_spec k k') as [->|Hne]; simpl; auto.
  constructor; auto. rewrite keys_delete. tauto.
Qed.

Lemma NoDup_keys_spread a b : NoDup (keys a) -> NoDup (keys (spread a b)).
Proof.
  unfold spread. revert a.
  induction b as [|[k v] rest IH]; intros a Hnd; simpl; auto.
  apply IH. now apply NoDup_keys_set.
Qed.

(** On an object without repeated keys the last occurrence of a key is
    the first. *)
Lemma lookup_rev k o : NoDup (keys o) -> lookup k (rev o) = lookup k o.
Proof.
  induction o as [|[k' v'] rest IH]; simpl; intros Hnd; auto.
  inversion Hnd as [|? ? Hnotin Hnd']; subst.
  rewrite lookup_app, IH by assumption. simpl.
  destruct (String.eqb_spec k k') as [->|Hne].
  - apply lookup_None_keys in Hnotin. now rewrite Hnotin.
  - now destruct (lookup k rest).
Qed.

Lemma get_lookup k o o' : lookup k o = lookup k o' -> get k o = get k o'.
Proof. unfold get. now intros ->. Qed.

Lemma unique_NoDup l : unique l = true -> NoDup l.
Proof.
  induction l as [|x rest IH]; simpl; [constructor|].
  rewrite andb_true_iff, negb_true_iff. intros [Hx Hr].
  constructor; auto. intros Hin.
  apply not_true_iff_false in Hx. apply Hx.
  apply existsb_exists. exists x. split; auto. apply String.eqb_refl.
Qed.

Lemma get_defined_lookup k o : get k o <> VUndefined -> lookup k o = Some (get k o).
Proof. unfold get. destruct (lookup k o); congruence. Qed.

Lemma lookup_spread_out k a b :
  ~ In k (keys b) -> lookup k (spread a b) = lookup k a.
Proof.
  intros Hk. rewrite lookup_spread.
  assert (H : lookup k (rev b) = None).
  { apply lookup_None_keys. unfold keys. rewrite map_rev, <- in_rev. exact Hk. }
  now rewrite H.
Qed.

End ObjectFacts.

(* ================================================================== *)
(** * Facts about validation *)
(* ================================================================== *)

Section ValidationFacts.

Variable E : Env.


Lemma flat_map_agree {A B : Type} (f g : A -> list B) (l : list A) :
  (forall x, In x l -> f x = g x) -> flat_map f l = flat_map g l.
Proof.
  induction l as [|x rest IH]; intros H; simpl; auto.
  rewrite (H x), IH; auto using in_eq, in_cons.
Qed.

Lemma run_rules_collect p s path rs v errors :
  abortEarly p = false ->
  r_errors (run_rules E p s path rs v errors) = errors ++ failing E s path rs v.
Proof.
  intros Hp. revert errors.
  induction rs as [|r rest IH]; intros errors; simpl.
  - now rewrite app_nil_r.
  - destruct (test_rule E s path r v) as [e|]; simpl.
    + rewrite Hp, IH, <- app_assoc. reflexivity.
    + apply IH.
Qed.

Lemma run_rules_abort p s path rs v errors :
  abortEarly p = true ->
  r_errors (run_rules E p s path rs v errors) =
    match failing E s path rs v with
    | [] => errors
    | e :: _ => [e]
    end.
Proof.
  intros Hp. induction rs as [|r rest IH]; simpl; auto.
  destruct (test_rule E s path r v) as [e|]; simpl; auto.
  now rewrite Hp.
Qed.

Lemma run_rules_value p s path rs v errors :
  r_value (run_rules E p s path rs v errors) = r_value (finalize s v []).
Proof.
  revert errors. induction rs as [|r rest IH]; intros errors; simpl; auto.
  destruct (test_rule E s path r v); auto.
  destruct (abortEarly p); auto.
Qed.

(** Under [abortEarly] a schema reports the first of the errors that it
    reports without it. *)
Lemma validate_schema_firstn p s path v :
  r_errors (validate_schema E (with_abortEarly true p) s path v) =
  firstn 1 (r_errors (validate_schema E (with_abortEarly false p) s path v)).
Proof.
  unfold validate_schema, validate_coerced.
  replace (coerce E (with_abortEarly true p) s path v)
    with (coerce E (with_abortEarly false p) s path v) by reflexivity.
  destruct (coerce E (with_abortEarly false p) s path v) as [v' [e|]];
    [reflexivity|].
  destruct (is_undefined v').
  { destruct (s_presence s) as [[]|]; reflexivity. }
  destruct (s_presence s) as [[]|]; try reflexivity.
  all: destruct (valids_get s v'); [reflexivity|].
  all: destruct (s_only s); simpl.
  all: destruct (base_validate E s path v'); simpl; try reflexivity.
  all: try rewrite (run_rules_abort (with_abortEarly true p)) by reflexivity.
  all: rewrite (run_rules_collect (with_abortEarly false p)) by reflexivity.
  all: simpl; try reflexivity.
  all: destruct (failing E s path (s_rules s) v'); reflexivity.
Qed.

Lemma validate_schema_abort_short p s path v :
  (length (r_errors (validate_schema E (with_abortEarly true p) s path v)) <= 1)%nat.
Proof.
  rewrite validate_schema_firstn.
  destruct (r_errors (validate_schema E (with_abortEarly false p) s path v));
    simpl; lia.
Qed.

(** ** The loop over the children *)

Lemma lookup_store_result_ne k key item r value :
  k <> key -> lookup k (store_result key item r value) = lookup k value.
Proof.
  intros Hne. unfold store_result.
  destruct (r_errors r); destruct (is_undefined (r_value r));
    destruct (is_undefined item); simpl;
    auto using lookup_set_ne, lookup_delete_ne.
Qed.

Lemma get_store_result_eq key r value :
  get key (store_result key (get key value) r value) =
    match r_errors r with
    | [] => r_value r
    | _ :: _ => if is_undefined (r_value r) then get key value else r_value r
    end.
Proof.
  unfold store_result.
  destruct (r_errors r); destruct (r_value r) eqn:Hv; simpl;
    rewrite ?get_set_eq; auto.
  destruct (get key value) eqn:Hg; simpl;
    rewrite ?get_delete_eq; auto.
Qed.

Lemma keys_store_result key item r value x :
  In x (keys (store_result key item r value)) -> x = key \/ In x (keys value).
Proof.
  unfold store_result.
  destruct (r_errors r); destruct (is_undefined (r_value r));
    destruct (is_undefined item); simpl; intros H; auto.
  all: try (apply keys_set_incl in H; tauto).
  all: apply keys_delete in H; tauto.
Qed.

Lemma NoDup_store_result key item r value :
  NoDup (keys value) -> NoDup (keys (store_result key item r value)).
Proof.
  unfold store_result.
  destruct (r_errors r); destruct (is_undefined (r_value r));
    destruct (is_undefined item); simpl;
    auto using NoDup_keys_set, NoDup_keys_delete.
Qed.

Lemma child_errors_store_result p key item r value c :
  fst c <> key ->
  child_errors E p (store_result key item r value) c = child_errors E p value c.
Proof.
  intros Hne. unfold child_errors, child_result.
  now rewrite (get_lookup _ _ _ (lookup_store_result_ne _ _ item r value Hne)).
Qed.

Lemma child_result_store_result p key item r value c :
  fst c <> key ->
  child_result E p (store_result key item r value) c = child_result E p value c.
Proof.
  intros Hne. unfold child_result.
  now rewrite (get_lookup _ _ _ (lookup_store_result_ne _ _ item r value Hne)).
Qed.

(** Without [abortEarly] the loop runs to its end. *)
Lemma validate_children_collect p cs value errors :
  abortEarly p = false ->
  validate_children E p cs value errors =
    Continue (apply_children E p cs value)
             (errors ++ errors_children E p cs value).
Proof.
  intros Hp. revert value errors.
  induction cs as [|[key s] rest IH]; intros value errors; simpl.
  - now rewrite app_nil_r.
  - unfold child_errors, child_result, store_result; simpl.
    destruct (r_errors (validate_schema E p s [key] (get key value))) eqn:He.
    + simpl.
      destruct (is_undefined (r_value (validate_schema E p s [key] (get key value))));
        destruct (is_undefined (get key value)); simpl; apply IH.
    + rewrite Hp, IH, <- app_assoc. reflexivity.
Qed.

(** With [abortEarly] it stops at the first child that reports an error. *)
Lemma validate_children_abort p cs value errors :
  match errors_children E (with_abortEarly true p) cs value with
  | [] =>
      validate_children E (with_abortEarly true p) cs value errors =
        Continue (apply_children E (with_abortEarly true p) cs value) errors
  | e :: _ =>
      exists value',
        validate_children E (with_abortEarly true p) cs value errors =
          Return value' [e]
  end.
Proof.
  revert value errors.
  induction cs as [|[key s] rest IH]; intros value errors; simpl; auto.
  pose proof (validate_schema_abort_short p s [key] (get key value)) as Hlen.
  unfold child_errors, child_result, store_result; simpl.
  destruct (r_errors (validate_schema E (with_abortEarly true p) s [key]
                                      (get key value))) as [|e l] eqn:He.
  - simpl.
    destruct (is_undefined (r_value (validate_schema E (with_abortEarly true p)
                                                     s [key] (get key value))));
      destruct (is_undefined (get key value)); simpl; apply IH.
  - simpl. destruct l; [|simpl in Hlen; lia]. eauto.
Qed.

(** Each child is judged on its own field of the value that came in. *)
Lemma errors_children_flat_map p cs value :
  NoDup (map fst cs) ->
  errors_children E p cs value = flat_map (child_errors E p value) cs.
Proof.
  revert value. induction cs as [|c rest IH]; intros value Hnd; simpl; auto.
  inversion Hnd as [|? ? Hnotin Hnd']; subst.
  rewrite IH by assumption. f_equal.
  apply flat_map_agree. intros c' Hin.
  apply child_errors_store_result.
  intros Heq. apply Hnotin. rewrite <- Heq. now apply in_map.
Qed.

Lemma lookup_apply_children_out p cs value k :
  ~ In k (map fst cs) ->
  lookup k (apply_children E p cs value) = lookup k value.
Proof.
  revert value. induction cs as [|c rest IH]; intros value Hk; simpl; auto.
  simpl in Hk. rewrite IH by tauto.
  apply lookup_store_result_ne. intros ->. tauto.
Qed.

Lemma get_apply_children_in p cs value c :
  NoDup (map fst cs) -> In c cs ->
  get (fst c) (apply_children E p cs value) =
    match child_errors E p value c with
    | [] => r_value (child_result E p value c)
    | _ :: _ => if is_undefined (r_value (child_result E p value c))
                then get (fst c) value
                else r_value (child_result E p value c)
    end.
Proof.
  revert value. induction cs as [|c' rest IH]; intros value Hnd Hin; [easy|].
  inversion Hnd as [|? ? Hnotin Hnd']; subst. simpl.
  destruct Hin as [->|Hin].
  - rewrite (get_lookup _ _ _ (lookup_apply_children_out p rest _ _ Hnotin)).
    apply get_store_result_eq.
  - assert (Hne : fst c <> fst c').
    { intros Heq. apply Hnotin. rewrite <- Heq. now apply in_map. }
    rewrite IH by assumption.
    unfold child_errors.
    rewrite child_result_store_result by assumption.
    now rewrite (get_lookup _ _ _ (lookup_store_result_ne _ _ _ _ value Hne)).
Qed.

Lemma keys_apply_children p cs value x :
  In x (keys (apply_children E p cs value)) ->
  In x (keys value) \/ In x (map fst cs).
Proof.
  revert value. induction cs as [|c rest IH]; intros value; simpl; auto.
  intros Hin. destruct (IH _ Hin) as [H|H]; auto.
  destruct (keys_store_result _ _ _ _ _ H); auto.
Qed.

Lemma NoDup_apply_children p cs value :
  NoDup (keys value) -> NoDup (keys (apply_children E p cs value)).
Proof.
  revert value. induction cs as [|c rest IH]; intros value Hnd; simpl; auto.
  apply IH. now apply NoDup_store_result.
Qed.

(** ** Unknown keys *)

Lemma unprocessed_In cs value k :
  In k (unprocessed cs value) <-> In k (keys value) /\ ~ In k (map fst cs).
Proof.
  unfold unprocessed. rewrite filter_In, negb_true_iff.
  split; intros [Hk Hc]; split; auto.
  - intros Hin. apply not_true_iff_false in Hc. apply Hc.
    apply existsb_exists. exists k. split; auto. apply String.eqb_refl.
  - apply not_true_iff_false. intros Hex.
    apply existsb_exists in Hex. destruct Hex as [x [Hx Heq]].
    apply String.eqb_eq in Heq. now subst.
Qed.

Lemma lookup_strip_out ks value k :
  ~ In k ks -> lookup k (fold_left (fun o k' => delete k' o) ks value) = lookup k value.
Proof.
  revert value. induction ks as [|x rest IH]; intros value Hk; simpl; auto.
  simpl in Hk. rewrite IH by tauto. apply lookup_delete_ne. intros ->. tauto.
Qed.

Lemma keys_strip ks value x :
  In x (keys (fold_left (fun o k' => delete k' o) ks value)) ->
  In x (keys value) /\ ~ In x ks.
Proof.
  revert value. induction ks as [|k rest IH]; intros value; simpl; [tauto|].
  intros Hin. destruct (IH _ Hin) as [H1 H2].
  apply keys_delete in H1. split; [tauto|]. intros [->|?]; tauto.
Qed.

Lemma NoDup_strip ks value :
  NoDup (keys value) ->
  NoDup (keys (fold_left (fun o k' => delete k' o) ks value)).
Proof.
  revert value. induction ks as [|k rest IH]; intros value Hnd; simpl; auto.
  apply IH. now apply NoDup_keys_delete.
Qed.

(** ** The whole object *)

(** Collecting all errors and stripping the unknown keys (the preferences
    of [updatePerk]): the errors are those of the children, the value holds
    the keys of the schema only. *)
Lemma validate_strip_collect sch value p :
  abortEarly p = false -> stripUnknown p = true ->
  validate E sch (VObject value) p =
    mkResult
      (VObject (fold_left (fun o k => delete k o)
                          (unprocessed (children sch) value)
                          (apply_children E p (children sch) value)))
      (errors_children E p (children sch) value).
Proof.
  intros Ha Hs. unfold validate.
  rewrite validate_children_collect by assumption.
  unfold unknown. now rewrite Hs.
Qed.

(** Stopping at the first error and refusing unknown keys (the preferences
    of [createPerk]). *)
Lemma validate_abort_errors sch value p :
  stripUnknown p = false -> allowUnknown p = false ->
  r_errors (validate E sch (VObject value) (with_abortEarly true p)) =
    match errors_children E (with_abortEarly true p) (children sch) value with
    | [] =>
        match unprocessed (children sch) value with
        | [] => []
        | k :: _ => [err E "object.unknown" [k]]
        end
    | e :: _ => [e]
    end.
Proof.
  intros Hs Hu. unfold validate.
  pose proof (validate_children_abort p (children sch) value []) as H.
  destruct (errors_children E (with_abortEarly true p) (children sch) value).
  - rewrite H. unfold unknown. simpl. rewrite Hs, Hu.
    destruct (unprocessed (children sch) value); reflexivity.
  - destruct H as [value' ->]. reflexivity.
Qed.





(** Every error of a schema is reported at the path of its field. *)
Lemma run_rules_paths p s path rs v errors :
  Forall (fun d => d_path d = path) errors ->
  Forall (fun d => d_path d = path) (r_errors (run_rules E p s path rs v errors)).
Proof.
  revert errors. induction rs as [|r rest IH]; intros errors Hall; simpl; auto.
  assert (Ht : forall e, test_rule E s path r v = Some e -> d_path e = path).
  { unfold test_rule. intros e.
    destruct (s_type s), v; try discriminate; destruct r;
      match goal with |- context [if ?b then _ else _] => destruct b end;
      intros H; inversion H; reflexivity. }
  destruct (test_rule E s path r v) as [e|]; auto.
  destruct (abortEarly p); simpl.
  - constructor; auto.
  - apply IH. apply Forall_app. split; auto.
Qed.

Lemma validate_schema_paths p s path v :
  Forall (fun d => d_path d = path) (r_errors (validate_schema E p s path v)).
Proof.
  assert (Hb : forall x e, base_validate E s path x = Some e -> d_path e = path).
  { unfold base_validate. intros x e.
    destruct (s_type s), x; try discriminate;
      repeat match goal with |- context [if ?b then _ else _] => destruct b end;
      intros H; inversion H; reflexivity. }
  unfold validate_schema.
  destruct (coerce E p s path v) as [v' [e|]] eqn:Hc.
  { simpl. constructor; auto. unfold coerce in Hc.
    destruct (s_type s), v; try discriminate.
    destruct (convert p); try discriminate.
    destruct (numberCoerce E s0); inversion Hc. reflexivity. }
  unfold validate_coerced.
  destruct (is_undefined v').
  { destruct (s_presence s) as [[]|]; simpl; repeat constructor. }
  destruct (s_presence s) as [[]|]; simpl; try (repeat constructor; fail).
  all: destruct (valids_get s v'); simpl; auto.
  all: destruct (s_only s); simpl.
  all: try (destruct (abortEarly p); simpl; [repeat constructor; fail|]).
  all: destruct (base_validate E s path v') as [e|] eqn:He; simpl.
  all: try (apply Hb in He; repeat constructor; auto; fail).
  all: apply run_rules_paths; repeat constructor.
Qed.

Lemma flat_map_nil {A B : Type} (f : A -> list B) (l : list A) (x : A) :
  flat_map f l = [] -> In x l -> f x = [].
Proof.
  induction l as [|y rest IH]; simpl; [easy|].
  intros H [->|Hin]; apply app_eq_nil in H; destruct H; auto.
Qed.

(** The value of a validation that reports no error: every field holds
    what its schema made of it. *)
Lemma validate_ok sch value p :
  NoDup (map fst (children sch)) ->
  r_errors (validate E sch (VObject value) p) = [] ->
  exists value',
    r_value (validate E sch (VObject value) p) = VObject value' /\
    forall c, In c (children sch) ->
              child_errors E p value c = [] /\
              get (fst c) value' = r_value (child_result E p value c).
Proof.
  intros Hnd. unfold validate.
  assert (Hfields : forall value',
    errors_children E p (children sch) value = [] ->
    (forall k, In k (map fst (children sch)) ->
               lookup k value' =
               lookup k (apply_children E p (children sch) value)) ->
    forall c, In c (children sch) ->
              child_errors E p value c = [] /\
              get (fst c) value' = r_value (child_result E p value c)).
  { intros value' He Hl c Hin.
    rewrite errors_children_flat_map in He by assumption.
    pose proof (flat_map_nil _ _ c He Hin) as Hc. split; [exact Hc|].
    rewrite (get_lookup _ _ _ (Hl (fst c) (in_map fst _ _ Hin))).
    rewrite (get_apply_children_in p (children sch) value c Hnd Hin).
    now rewrite Hc. }
  assert (Hunknown : forall errors,
    r_errors match unknown E p (unprocessed (children sch) value)
                     (apply_children E p (children sch) value) errors with
             | Return v e | Continue v e => mkResult (VObject v) e
             end = [] ->
    errors = [] /\
    exists value',
      r_value match unknown E p (unprocessed (children sch) value)
                      (apply_children E p (children sch) value) errors with
              | Return v e | Continue v e => mkResult (VObject v) e
              end = VObject value' /\
      forall k, In k (map fst (children sch)) ->
                lookup k value' =
                lookup k (apply_children E p (children sch) value)).
  { intros errors. unfold unknown.
    destruct (stripUnknown p).
    { simpl. intros ->. split; auto. eexists. split; [reflexivity|].
      intros k Hk. apply lookup_strip_out.
      intros Hin. apply unprocessed_In in Hin. tauto. }
    destruct (allowUnknown p); [simpl; intros ->; eauto|].
    destruct (unprocessed (children sch) value); [simpl; intros ->; eauto|].
    destruct (abortEarly p); simpl; [discriminate|].
    intros H. now apply app_eq_nil in H. }
  destruct (abortEarly p) eqn:Ha.
  - destruct p as [a u c s']. simpl in Ha. subst a.
    pose proof (validate_children_abort (mkPrefs true u c s') (children sch)
                                        value []) as H.
    unfold with_abortEarly in H.
    cbn [abortEarly allowUnknown convert stripUnknown] in H.
    destruct (errors_children E (mkPrefs true u c s') (children sch) value)
      eqn:He; try rewrite He in H.
    + rewrite H. intros Hr. destruct (Hunknown [] Hr) as [_ [value' [Hv Hl]]].
      exists value'. split; [exact Hv|]. now apply Hfields.
    + destruct H as [value' ->]. discriminate.
  - rewrite validate_children_collect by assumption. simpl.
    intros Hr. destruct (Hunknown _ Hr) as [He [value' [Hv Hl]]].
    exists value'. split; [exact Hv|]. now apply Hfields.
Qed.

(** A body that is present and passes is an object, or a string that Joi
    reads as one. *)
Lemma validate_present sch b p :
  b <> VUndefined ->
  r_errors (validate E sch b p) = [] ->
  exists value, validate E sch b p = validate E sch (VObject value) p.
Proof.
  intros Hb. unfold validate.
  destruct b as [| | | |x| | | |value]; try discriminate; try congruence.
  - destruct (convert p); [|discriminate].
    destruct (jsonObject E x) as [o|]; [|discriminate].
    intros _. exists o. reflexivity.
  - intros _. exists value. reflexivity.
Qed.

End ValidationFacts.

(* ================================================================== *)
(** * Facts about the fields of [perkSchema] *)
(* ================================================================== *)

Section FieldFacts.

Variable E : Env.

Lemma perkSchema_keys :
  map fst (children perkSchema) =
    ["title"; "description"; "category"; "discountPercent"; "merchant";
     "ccreatedBy"].
Proof. reflexivity. Qed.

Lemma perkSchema_NoDup : NoDup (map fst (children perkSchema)).
Proof.
  rewrite perkSchema_keys.
  repeat (constructor; [simpl; intuition discriminate|]). constructor.
Qed.

Lemma perkSchema_category : In ("category", categorySchema) (children perkSchema).
Proof. simpl. auto 10. Qed.

Lemma perkSchema_discount :
  In ("discountPercent", discountSchema) (children perkSchema).
Proof. simpl. auto 10. Qed.

Lemma strict_equal_string v m :
  is_string m -> strict_equal v m = true -> v = m.
Proof.
  intros [x ->]. destruct v; simpl; try discriminate.
  intros H. apply String.eqb_eq in H. now subst.
Qed.

(** A schema that is not a number schema, and whose allowed values are
    strings, hands a valid value back as it came. *)
Lemma validate_schema_keeps p s path v :
  s_type s <> TNumber ->
  Forall is_string (s_valids s) ->
  r_errors (validate_schema E p s path v) = [] ->
  r_value (validate_schema E p s path v) = r_value (finalize s v []).
Proof.
  intros Ht Hv. unfold validate_schema, validate_coerced.
  assert (Hc : coerce E p s path v = (v, None)).
  { unfold coerce. destruct (s_type s); try reflexivity; congruence. }
  rewrite Hc.
  destruct (is_undefined v) eqn:Hu.
  { destruct (s_presence s) as [[]|]; simpl; rewrite Hu; reflexivity. }
  destruct (s_presence s) as [[]|]; try reflexivity.
  all: destruct (valids_get s v) as [m|] eqn:Hm.
  all: try (unfold valids_get in Hm; apply find_some in Hm;
            destruct Hm as [Hin Heq];
            rewrite Forall_forall in Hv;
            rewrite <- (strict_equal_string v m (Hv m Hin) Heq);
            destruct (convert p); reflexivity).
  all: destruct (andb (s_only s) (abortEarly p)); try reflexivity.
  all: destruct (base_validate E s path v); try reflexivity.
  all: intros _; apply run_rules_value.
Qed.

(** A schema built with [valid()] passes the allowed values only. *)
Lemma validate_schema_only p s path v :
  s_type s <> TNumber ->
  s_only s = true ->
  is_undefined v = false ->
  r_errors (validate_schema E p s path v) = [] ->
  exists m, valids_get s v = Some m.
Proof.
  intros Ht Ho Hu. unfold validate_schema, validate_coerced.
  assert (Hc : coerce E p s path v = (v, None)).
  { unfold coerce. destruct (s_type s); try reflexivity; congruence. }
  rewrite Hc, Hu, Ho.
  destruct (valids_get s v) as [m|]; [intros _; eauto|].
  destruct (s_presence s) as [[]|]; try discriminate.
  all: destruct (abortEarly p) eqn:Ha; try discriminate.
  all: simpl; destruct (base_validate E s path v); try discriminate.
  all: rewrite run_rules_collect by assumption; discriminate.
Qed.

(** The category that passes is one of the five, ["other"] when the field
    is missing. *)
Lemma category_valid p path v :
  r_errors (validate_schema E p categorySchema path v) = [] ->
  In (r_value (validate_schema E p categorySchema path v)) categories.
Proof.
  intros He.
  assert (Hv : Forall is_string (s_valids categorySchema)).
  { simpl. repeat constructor; unfold is_string; eauto. }
  rewrite (validate_schema_keeps p categorySchema path v) by (easy || assumption).
  destruct (is_undefined v) eqn:Hu.
  - destruct v; try discriminate. simpl. auto 10.
  - destruct (validate_schema_only p categorySchema path v) as [m Hm];
      try easy.
    unfold valids_get in Hm. apply find_some in Hm. destruct Hm as [Hin Heq].
    rewrite Forall_forall in Hv.
    rewrite <- (strict_equal_string v m (Hv m Hin) Heq) in Hin.
    unfold finalize. simpl. rewrite Hu. exact Hin.
Qed.

(** ** The discount *)

Ltac number_cases p q :=
  destruct (Qle_bool q max_safe_integer);
  destruct (Qle_bool (- max_safe_integer) q);
  destruct (Qle_bool 0 q) eqn:?H0;
  destruct (Qle_bool q 100) eqn:?H1;
  destruct (abortEarly p);
  cbn -[Qle_bool Qopp max_safe_integer].

(** A number that passes lies between 0 and 100. *)
Lemma discount_coerced_range p path q :
  r_errors (validate_coerced E p discountSchema path (VNum q)) = [] ->
  r_value (validate_coerced E p discountSchema path (VNum q)) = VNum q /\
  0 <= q /\ q <= 100.
Proof.
  unfold validate_coerced. cbn -[Qle_bool Qopp max_safe_integer].
  number_cases p q; try discriminate.
  all: intros _; repeat split; now apply Qle_bool_iff.
Qed.

(** A number outside of the range fails, and the value that comes with the
    error is the number itself. *)
Lemma discount_coerced_out p path q :
  q < 0 \/ 100 < q ->
  r_errors (validate_coerced E p discountSchema path (VNum q)) <> [] /\
  r_value (validate_coerced E p discountSchema path (VNum q)) = VNum q.
Proof.
  intros Hq. split.
  - intros He. apply discount_coerced_range in He.
    destruct He as [_ [H0 H1]].
    destruct Hq as [Hq|Hq];
      [now apply (Qlt_not_le q 0) | now apply (Qlt_not_le 100 q)].
  - unfold validate_coerced. cbn -[Qle_bool Qopp max_safe_integer].
    number_cases p q; reflexivity.
Qed.

Lemma discount_range p path v :
  r_errors (validate_schema E p discountSchema path v) = [] ->
  exists q, r_value (validate_schema E p discountSchema path v) = VNum q /\
            0 <= q /\ q <= 100.
Proof.
  unfold validate_schema.
  destruct v as [| | | q |x| | | |].
  5: { cbn [coerce discountSchema s_type Joi.default Joi.max Joi.min Joi.number].
       destruct (convert p); [destruct (numberCoerce E x) as [|q|q]|];
         try discriminate.
       intros He. exists q. now apply discount_coerced_range. }
  4: { cbn [coerce discountSchema s_type Joi.default Joi.max Joi.min Joi.number].
       intros He. exists q. now apply discount_coerced_range. }
  1: { intros _. exists 0. cbn. repeat split; discriminate. }
  all: discriminate.
Qed.

Lemma discount_out p path q :
  q < 0 \/ 100 < q ->
  r_errors (validate_schema E p discountSchema path (VNum q)) <> [] /\
  r_value (validate_schema E p discountSchema path (VNum q)) = VNum q.
Proof. apply discount_coerced_out. Qed.

Lemma discount_default p path :
  validate_schema E p discountSchema path VUndefined = mkResult (VNum 0) [].
Proof. reflexivity. Qed.

(** ** The fields that are handed back *)

(** A field other than the discount, when it passes, keeps the value that
    came in; a missing category alone is filled in. *)
Lemma field_kept p value c :
  In c (children perkSchema) ->
  fst c <> "discountPercent" ->
  (fst c = "category" -> get "category" value <> VUndefined) ->
  child_errors E p value c = [] ->
  r_value (child_result E p value c) = get (fst c) value.
Proof.
  intros Hin Hd Hcat He. unfold child_errors in He. unfold child_result in *.
  simpl in Hin.
  repeat destruct Hin as [<-|Hin]; try contradiction; cbn [fst snd] in *;
    try congruence.
  all: rewrite validate_schema_keeps; try assumption; try discriminate.
  all: try (unfold finalize; simpl;
            destruct (is_undefined (get _ value)); reflexivity).
  all: try (simpl; repeat constructor; unfold is_string; eauto; fail).
  unfold finalize. simpl.
  destruct (get "category" value); try reflexivity.
  now specialize (Hcat eq_refl).
Qed.

(** A discount that passes comes back as it came in, as the default 0 when
    it was missing, or as the number that the string it was converts to. *)
Lemma discount_field p path v :
  r_errors (validate_schema E p discountSchema path v) = [] ->
  r_value (validate_schema E p discountSchema path v) = v \/
  (v = VUndefined /\
   r_value (validate_schema E p discountSchema path v) = VNum 0) \/
  (exists x q, v = VStr x /\ numberCoerce E x = Numeric q /\
               r_value (validate_schema E p discountSchema path v) = VNum q).
Proof.
  unfold validate_schema.
  destruct v as [| | | q |x| | | |].
  5: { cbn [coerce discountSchema s_type Joi.default Joi.max Joi.min Joi.number].
       destruct (convert p); [destruct (numberCoerce E x) as [|q|q] eqn:Hn|];
         try discriminate.
       intros He. right. right. exists x, q. repeat split; auto.
       now apply discount_coerced_range. }
  4: { cbn [coerce discountSchema s_type Joi.default Joi.max Joi.min Joi.number].
       intros He. left. now apply discount_coerced_range. }
  1: { intros _. right. left. split; reflexivity. }
  all: discriminate.
Qed.

(** A category that passes comes back as it came in, or as the default
    when it was missing. *)
Lemma category_field p path v :
  r_errors (validate_schema E p categorySchema path v) = [] ->
  r_value (validate_schema E p categorySchema path v) =
    if is_undefined v then VStr "other" else v.
Proof.
  intros He.
  rewrite validate_schema_keeps; try assumption; try discriminate.
  - unfold finalize. simpl. destruct (is_undefined v); reflexivity.
  - simpl. repeat constructor; unfold is_string; eauto.
Qed.

(** Each field of the schema, when it passes: the value that came in, or
    one of the two defaults, or the converted discount. *)
Lemma field_written p value c :
  In c (children perkSchema) ->
  child_errors E p value c = [] ->
  let v := get (fst c) value in
  let r := r_value (child_result E p value c) in
  r = v \/
  (fst c = "category" /\ v = VUndefined /\ r = VStr "other") \/
  (fst c = "discountPercent" /\
   ((v = VUndefined /\ r = VNum 0) \/
    exists x q, v = VStr x /\ numberCoerce E x = Numeric q /\ r = VNum q)).
Proof.
  intros Hin He v r. subst v r.
  destruct (string_dec (fst c) "discountPercent") as [Hd|Hd].
  - assert (Hs : snd c = discountSchema).
    { simpl in Hin.
      repeat destruct Hin as [<-|Hin]; try contradiction; cbn [fst snd] in *;
        first [discriminate Hd | reflexivity]. }
    unfold child_errors, child_result in *. rewrite Hs in *.
    destruct (discount_field _ _ _ He) as [Hk|[[Hun Hk]|[x [q [Hx [Hn Hk]]]]]].
    + left. exact Hk.
    + right. right. split; [exact Hd|]. left. split; assumption.
    + right. right. split; [exact Hd|]. right. exists x, q.
      repeat split; assumption.
  - destruct (string_dec (fst c) "category") as [Hcat|Hcat].
    + assert (Hs : snd c = categorySchema).
      { simpl in Hin.
        repeat destruct Hin as [<-|Hin]; try contradiction; cbn [fst snd] in *;
          first [discriminate Hcat | reflexivity]. }
      unfold child_errors, child_result in *. rewrite Hs in *.
      rewrite (category_field _ _ _ He).
      destruct (get (fst c) value); cbn [is_undefined]; auto.
    + left. apply field_kept; auto.
Qed.


End FieldFacts.

(* ================================================================== *)
(** * Facts about the store *)
(* ================================================================== *)

Section StoreFacts.

Lemma newer_eq_total a b : newer_eq a b = false -> newer_eq b a = true.
Proof.
  unfold newer_eq. destruct (createdAt a), (createdAt b); try easy.
  rewrite Z.leb_gt, Z.leb_le. lia.
Qed.

Lemma newer_eq_trans a b c :
  newer_eq a b = true -> newer_eq b c = true -> newer_eq a c = true.
Proof.
  unfold newer_eq. destruct (createdAt a), (createdAt b), (createdAt c);
    try easy.
  rewrite !Z.leb_le. lia.
Qed.

Lemma insert_desc_perm d l : Permutation (insert_desc d l) (d :: l).
Proof.
  induction l as [|x rest IH]; simpl; auto.
  destruct (newer_eq d x); auto.
  rewrite IH. apply perm_swap.
Qed.

Lemma sort_desc_perm l : Permutation (sort_desc l) l.
Proof.
  induction l as [|d rest IH]; simpl; auto.
  rewrite insert_desc_perm. now constructor.
Qed.

Lemma insert_desc_sorted d l :
  StronglySorted (fun a b => newer_eq a b = true) l ->
  StronglySorted (fun a b => newer_eq a b = true) (insert_desc d l).
Proof.
  induction 1 as [|x rest Hs IH Hall]; simpl.
  - repeat constructor.
  - destruct (newer_eq d x) eqn:Hdx.
    + constructor; [now constructor|].
      constructor; auto.
      eapply Forall_impl; [|exact Hall].
      intros y Hxy. now apply (newer_eq_trans d x y).
    + constructor; auto.
      apply (Permutation_Forall (Permutation_sym (insert_desc_perm d rest))).
      constructor; auto. now apply newer_eq_total.
Qed.

Lemma sort_desc_sorted l :
  StronglySorted (fun a b => newer_eq a b = true) (sort_desc l).
Proof.
  induction l as [|d rest IH]; simpl; [constructor|].
  now apply insert_desc_sorted.
Qed.

End StoreFacts.

(* ================================================================== *)
(** * The handlers *)
(* ================================================================== *)

Section HandlerTheorems.

Variable E : Env.

(** C8 (as amended). [filterPerks] answers 400 when the title parameter is
    absent or empty; for any other title it answers 200 with exactly the
    perks of the store whose title is that string, each as often as the
    store holds it, no perk before a newer one. *)
Theorem filterPerks_exact_title st req :
  match query_title req with
  | None | Some "" =>
      filterPerks E st req =
        (Respond 400 (Message "Title query parameter is required"), st)
  | Some title =>
      exists found,
        filterPerks E st req = (Respond 200 (PerkArray found), st) /\
        Permutation found
          (filter (fun d => match get "title" d with
                            | VStr x => String.eqb x title
                            | _ => false
                            end) (perks st)) /\
        (forall d, In d found <-> In d (perks st) /\ get "title" d = VStr title) /\
        StronglySorted (fun a b => newer_eq a b = true) found
  end.
Proof.
  unfold filterPerks. destruct (query_title req) as [title|]; [|reflexivity].
  destruct title as [|c title']; [reflexivity|].
  set (title := String c title').
  cbn [truthy String.eqb negb try_catch js_String].
  eexists. split; [reflexivity|].
  assert (Hfind : Perk_find E st [Equals "title" title] =
                  filter (fun d => match get "title" d with
                                   | VStr x => String.eqb x title
                                   | _ => false
                                   end) (perks st)).
  { unfold Perk_find. apply filter_ext. intros d. simpl.
    destruct (get "title" d); auto using andb_true_r. }
  unfold sort_createdAt_desc. rewrite Hfind.
  split; [apply sort_desc_perm|]. split; [|apply sort_desc_sorted].
  intros d. split.
  - intros Hin. apply (Permutation_in d (sort_desc_perm _)) in Hin.
    apply filter_In in Hin. destruct Hin as [Hin Ht]. split; auto.
    destruct (get "title" d); try discriminate.
    apply String.eqb_eq in Ht. now subst.
  - intros [Hin Ht].
    apply (Permutation_in d (Permutation_sym (sort_desc_perm _))).
    apply filter_In. split; auto. rewrite Ht. apply String.eqb_refl.
Qed.


(** C10. When the id parameter is not a valid identifier, [getPerk],
    [updatePerk] and [deletePerk] do not answer at all (so not with 404):
    the cast error of the lookup goes to the error handler, and the store
    is as before. *)
Theorem invalid_id_cast_error st req :
  isValid E (params_id req) = false ->
  getPerk E st req = (Next CastError, st) /\
  updatePerk E st req = (Next CastError, st) /\
  deletePerk E st req = (Next CastError, st).
Proof.
  intros Hid.
  unfold getPerk, updatePerk, deletePerk, Perk_findById, Perk_findByIdAndDelete.
  rewrite Hid. repeat split; reflexivity.
Qed.

Lemma Perk_create_fields st doc0 doc st' :
  Perk_create E st doc0 = Ok (doc, st') ->
  perks st' = perks st ++ [doc] /\ users st' = users st /\
  forall k, k <> "_id" -> k <> "createdAt" -> get k doc = get k doc0.
Proof.
  unfold Perk_create. destruct (insertCheck E st doc0); [discriminate|].
  intros H. inversion H; subst. repeat split.
  intros k H1 H2. now rewrite !get_set_ne.
Qed.

(** C5. A creation payload that passes validation is stored, when the store
    takes it, with one of the five categories, a discount between 0 and
    100, and the caller as its creator. *)
Theorem createPerk_stored st req id doc st' :
  body req <> VUndefined ->
  r_errors (validate E perkSchema (body req) createPrefs) = [] ->
  user req = Some id ->
  Perk_create E st
    (spread (own_props (r_value (validate E perkSchema (body req) createPrefs)))
            [("createdBy", VStr id)]) = Ok (doc, st') ->
  createPerk E st req = (Respond 201 (OnePerk doc), st') /\
  In doc (perks st') /\
  In (get "category" doc) categories /\
  (exists q, get "discountPercent" doc = VNum q /\ 0 <= q /\ q <= 100) /\
  get "createdBy" doc = VStr id.
Proof.
  intros Hb Hv Hu Hc. split.
  { unfold createPerk. rewrite Hv, Hu. cbn [bind]. rewrite Hc. reflexivity. }
  destruct (validate_present E perkSchema (body req) createPrefs Hb Hv)
    as [value Hval].
  rewrite Hval in Hv, Hc.
  destruct (validate_ok E perkSchema value createPrefs perkSchema_NoDup Hv)
    as [value' [Hr Hf]].
  rewrite Hr in Hc. cbn [own_props spread fold_left fst snd] in Hc.
  destruct (Perk_create_fields _ _ _ _ Hc) as [Hp [_ Hk]].
  split; [rewrite Hp; apply in_or_app; right; now left|].
  rewrite !Hk by discriminate.
  rewrite get_set_eq, !get_set_ne by discriminate.
  destruct (Hf _ perkSchema_category) as [Hce Hcv].
  destruct (Hf _ perkSchema_discount) as [Hde Hdv].
  cbn [fst snd] in Hcv, Hdv. rewrite Hcv, Hdv.
  repeat split.
  - now apply category_valid.
  - now apply discount_range.
Qed.

(** C3 (as amended). A discount outside of [0,100] is not clamped: under
    any preferences the validation fails; [createPerk] answers 400 and
    leaves the store alone; in update mode the error names the field and
    the value that comes with it still holds the number. A missing discount
    becomes 0 in the value of a validation that passes. *)
Theorem discount_rejected_not_clamped :
  (forall p value q,
      get "discountPercent" value = VNum q -> q < 0 \/ 100 < q ->
      r_errors (validate E perkSchema (VObject value) p) <> []) /\
  (forall st req value q,
      body req = VObject value ->
      get "discountPercent" value = VNum q -> q < 0 \/ 100 < q ->
      exists message,
        createPerk E st req = (Respond 400 (Message message), st)) /\
  (forall value q,
      get "discountPercent" value = VNum q -> q < 0 \/ 100 < q ->
      (exists d, In d (r_errors (validate E perkSchema (VObject value) updatePrefs))
                 /\ d_path d = ["discountPercent"]) /\
      get "discountPercent"
          (own_props (r_value (validate E perkSchema (VObject value) updatePrefs)))
        = VNum q) /\
  (forall p value,
      get "discountPercent" value = VUndefined ->
      r_errors (validate E perkSchema (VObject value) p) = [] ->
      get "discountPercent"
          (own_props (r_value (validate E perkSchema (VObject value) p)))
        = VNum 0).
Proof.
  assert (Hfail : forall p value q,
             get "discountPercent" value = VNum q -> q < 0 \/ 100 < q ->
             r_errors (validate E perkSchema (VObject value) p) <> []).
  { intros p value q Hg Hq He.
    destruct (validate_ok E perkSchema value p perkSchema_NoDup He)
      as [value' [_ Hf]].
    destruct (Hf _ perkSchema_discount) as [Hde _].
    unfold child_errors, child_result in Hde. cbn [fst snd] in Hde.
    rewrite Hg in Hde.
    destruct (discount_out E p ["discountPercent"] q Hq) as [Hne _].
    now apply Hne. }
  split; [exact Hfail|]. split; [|split].
  - intros st req value q Hb Hg Hq. unfold createPerk. rewrite Hb.
    destruct (r_errors (validate E perkSchema (VObject value) createPrefs))
      eqn:He; [exfalso; exact (Hfail _ _ _ Hg Hq He)|].
    eexists. reflexivity.
  - intros value q Hg Hq.
    rewrite validate_strip_collect by reflexivity.
    cbn [r_errors r_value own_props].
    rewrite errors_children_flat_map by apply perkSchema_NoDup.
    destruct (discount_out E updatePrefs ["discountPercent"] q Hq) as [Hne Hval].
    split.
    + destruct (r_errors (validate_schema E updatePrefs discountSchema
                                          ["discountPercent"] (VNum q)))
        as [|d l] eqn:Hd; [congruence|].
      exists d. split.
      * apply in_flat_map. exists ("discountPercent", discountSchema).
        split; [apply perkSchema_discount|].
        unfold child_errors, child_result. cbn [fst snd]. rewrite Hg, Hd.
        now left.
      * pose proof (validate_schema_paths E updatePrefs discountSchema
                                          ["discountPercent"] (VNum q)) as Hp.
        rewrite Hd in Hp. now inversion Hp.
    + rewrite (get_lookup "discountPercent" _
                 (apply_children E updatePrefs (children perkSchema) value)).
      2: { apply lookup_strip_out. intros Hin.
           apply unprocessed_In in Hin. destruct Hin as [_ Hin].
           apply Hin. rewrite perkSchema_keys. simpl. auto 10. }
      pose proof (get_apply_children_in E updatePrefs (children perkSchema)
                    value ("discountPercent", discountSchema)
                    perkSchema_NoDup perkSchema_discount) as Hga.
      cbn [fst] in Hga. rewrite Hga.
      unfold child_errors, child_result. cbn [fst snd]. rewrite Hg, Hval.
      destruct (r_errors (validate_schema E updatePrefs discountSchema
                                          ["discountPercent"] (VNum q)));
        reflexivity.
  - intros p value Hg He.
    destruct (validate_ok E perkSchema value p perkSchema_NoDup He)
      as [value' [Hr Hf]].
    destruct (Hf _ perkSchema_discount) as [_ Hdv].
    rewrite Hr. cbn [own_props]. cbn [fst] in Hdv. rewrite Hdv.
    unfold child_result. cbn [fst snd]. rewrite Hg. reflexivity.
Qed.


(** X3. In creation mode a payload that names [createdBy] is refused with
    400 and nothing is stored: the key is unknown to the schema. *)
Lemma createPerk_rejects_owner st req value :
  body req = VObject value ->
  In "createdBy" (keys value) ->
  exists message, createPerk E st req = (Respond 400 (Message message), st).
Proof.
  intros Hb Hin. unfold createPerk. rewrite Hb.
  pose proof (validate_abort_errors E perkSchema value createPrefs
                                    eq_refl eq_refl) as He.
  change (with_abortEarly true createPrefs) with createPrefs in He.
  destruct (r_errors (validate E perkSchema (VObject value) createPrefs));
    [|eexists; reflexivity].
  exfalso.
  destruct (errors_children E createPrefs (children perkSchema) value);
    [|discriminate].
  assert (Hun : In "createdBy" (unprocessed (children perkSchema) value)).
  { apply unprocessed_In. split; auto. rewrite perkSchema_keys.
    simpl. intuition discriminate. }
  destruct (unprocessed (children perkSchema) value); [contradiction|].
  discriminate.
Qed.

(** ** The update *)

(** An update whose merged document passes, and that the store takes:
    the answer and the store after it. *)
Lemma updatePerk_accepted st req existing :
  Perk_findById E st (params_id req) = Ok (Some existing) ->
  let merged := spread (toObject existing) (own_props (body req)) in
  let validated :=
    own_props (r_value (validate E perkSchema (VObject merged) updatePrefs)) in
  r_errors (validate E perkSchema (VObject merged) updatePrefs) = [] ->
  updateCheck E st (params_id req) validated = None ->
  updatePerk E st req =
    (Respond 200 (OnePerk (spread existing validated)),
     mkStore (replace_first (has_id (castId E (params_id req)))
                            (spread existing validated) (perks st))
             (users st)).
Proof.
  intros Hfind merged validated Hv Hcheck.
  unfold updatePerk. rewrite Hfind. cbn [bind]. fold merged. rewrite Hv.
  fold validated. unfold Perk_findById in Hfind.
  unfold Perk_findByIdAndUpdate.
  destruct (isValid E (params_id req)); [|discriminate].
  rewrite Hcheck. injection Hfind as ->. reflexivity.
Qed.

(** The validated document has each key once, and keys of the schema
    only. *)
Lemma validated_keys existing body0 :
  NoDup (keys existing) ->
  let merged := spread (toObject existing) (own_props body0) in
  let validated :=
    own_props (r_value (validate E perkSchema (VObject merged) updatePrefs)) in
  r_errors (validate E perkSchema (VObject merged) updatePrefs) = [] ->
  NoDup (keys validated) /\
  (forall k, In k (keys validated) -> In k (map fst (children perkSchema))).
Proof.
  intros Hu merged validated Hv.
  assert (Hval : validated =
                 fold_left (fun o k => delete k o)
                           (unprocessed (children perkSchema) merged)
                           (apply_children E updatePrefs (children perkSchema)
                                           merged)).
  { unfold validated. now rewrite validate_strip_collect by reflexivity. }
  assert (Hnd : NoDup (keys validated)).
  { rewrite Hval. apply NoDup_strip, NoDup_apply_children.
    now apply NoDup_keys_spread. }
  assert (Hkeys : forall k, In k (keys validated) ->
                            In k (map fst (children perkSchema))).
  { intros k Hk. rewrite Hval in Hk. apply keys_strip in Hk.
    destruct Hk as [Hk Hun]. apply keys_apply_children in Hk.
    destruct Hk as [Hk|Hk]; auto.
    destruct (in_dec string_dec k (map fst (children perkSchema))); auto.
    exfalso. apply Hun. apply unprocessed_In. auto. }
  auto.
Qed.

(** Each field of the schema has passed, and the validated document holds
    what its validation gave. *)
Lemma validated_fields existing body0 :
  let merged := spread (toObject existing) (own_props body0) in
  let validated :=
    own_props (r_value (validate E perkSchema (VObject merged) updatePrefs)) in
  r_errors (validate E perkSchema (VObject merged) updatePrefs) = [] ->
  forall c, In c (children perkSchema) ->
            child_errors E updatePrefs merged c = [] /\
            get (fst c) validated =
              r_value (child_result E updatePrefs merged c).
Proof.
  intros merged validated Hv.
  destruct (validate_ok E perkSchema merged updatePrefs perkSchema_NoDup Hv)
    as [value' [Hr Hf]].
  unfold validated. rewrite Hr. exact Hf.
Qed.

(** A field of the validated document is the field of the updated perk. *)
Lemma get_updated (existing validated : obj) k v :
  (forall k, lookup k (spread existing validated) =
             match lookup k validated with
             | Some v => Some v
             | None => lookup k existing
             end) ->
  (v = VUndefined -> get k existing = VUndefined) ->
  get k validated = v ->
  get k (spread existing validated) = v.
Proof.
  intros Hdoc Hne Hs. unfold get at 1. rewrite Hdoc. unfold get in Hs, Hne.
  destruct (lookup k validated); [assumption|].
  subst v. specialize (Hne eq_refl).
  destruct (lookup k existing); congruence.
Qed.

(** A field that the merged document holds as the stored perk does. *)
Lemma field_frame (existing merged validated : obj) k :
  (forall k, lookup k (spread existing validated) =
             match lookup k validated with
             | Some v => Some v
             | None => lookup k existing
             end) ->
  (forall k, In k (keys validated) -> In k (map fst (children perkSchema))) ->
  (forall c, In c (children perkSchema) ->
             child_errors E updatePrefs merged c = [] /\
             get (fst c) validated =
               r_value (child_result E updatePrefs merged c)) ->
  get k merged = get k existing ->
  written_as E existing (spread existing validated) k.
Proof.
  intros Hdoc Hkeys Hfield Hm. unfold written_as.
  destruct (in_dec string_dec k (map fst (children perkSchema))) as [Hin|Hnin].
  2: { left. apply get_lookup. rewrite Hdoc.
       destruct (lookup k validated) eqn:Hl; auto.
       apply lookup_In_keys in Hl. now apply Hkeys in Hl. }
  apply in_map_iff in Hin. destruct Hin as [c [Hc Hin]].
  destruct (Hfield c Hin) as [He Hg].
  pose proof (field_written E updatePrefs merged c Hin He) as Hw.
  cbv zeta in Hw. rewrite <- Hg, Hc, Hm in Hw. clear He Hg.
  destruct Hw as [Hw|[[Hk [Hun Hw]]|[Hk [[Hun Hw]|[x [q [Hx [Hn Hw]]]]]]]].
  - left. apply get_updated; [exact Hdoc| |exact Hw].
    intros H. now rewrite <- H.
  - right. left. split; [exact Hk|]. split; [exact Hun|].
    apply get_updated; [exact Hdoc|discriminate|exact Hw].
  - right. right. split; [exact Hk|]. left. split; [exact Hun|].
    apply get_updated; [exact Hdoc|discriminate|exact Hw].
  - right. right. split; [exact Hk|]. right. exists x, q.
    split; [exact Hx|]. split; [exact Hn|].
    apply get_updated; [exact Hdoc|discriminate|exact Hw].
Qed.

(** The merged document of the update [{ discountPercent: q }]. *)
Lemma get_merged_discount (existing : obj) q k :
  get k (spread (toObject existing)
                (own_props (VObject [("discountPercent", VNum q)]))) =
    if String.eqb k "discountPercent" then VNum q else get k existing.
Proof.
  unfold toObject. cbn [own_props spread fold_left fst snd].
  destruct (String.eqb_spec k "discountPercent") as [->|Hne].
  - apply get_set_eq.
  - now apply get_set_ne.
Qed.

(** C6 (as amended). An update that passes validation, and that the store
    takes, answers 200 and writes the fields of the validated merged
    document: a field of the updated perk is the validated one when that
    document carries it, the stored one otherwise; that document carries
    fields of the schema only, so a field outside the schema stays as it
    was; the other perks and the users stay as they are. A field that the
    incoming payload does not carry stays as it was, with two exceptions: a
    perk stored without a category gets the default ["other"], and a perk
    stored without a discount, or with a string for one, gets 0, or the
    number the string converts to. In particular the update
    [{ discountPercent: q }] stores [q] and leaves every other field as it
    was, but for the category of a perk stored without one, which becomes
    ["other"]. *)
Theorem updatePerk_frame st req existing :
  Perk_findById E st (params_id req) = Ok (Some existing) ->
  unique_keys existing = true ->
  let merged := spread (toObject existing) (own_props (body req)) in
  let validated :=
    own_props (r_value (validate E perkSchema (VObject merged) updatePrefs)) in
  r_errors (validate E perkSchema (VObject merged) updatePrefs) = [] ->
  updateCheck E st (params_id req) validated = None ->
  exists doc,
    updatePerk E st req =
      (Respond 200 (OnePerk doc),
       mkStore (replace_first (has_id (castId E (params_id req))) doc (perks st))
               (users st)) /\
    (forall k, lookup k doc = match lookup k validated with
                              | Some v => Some v
                              | None => lookup k existing
                              end) /\
    (forall k, In k (keys validated) -> In k (map fst (children perkSchema))) /\
    (forall k, ~ In k (map fst (children perkSchema)) ->
               lookup k doc = lookup k existing) /\
    (forall k, ~ In k (keys (own_props (body req))) ->
               written_as E existing doc k) /\
    (forall q, body req = VObject [("discountPercent", VNum q)] ->
               get "discountPercent" doc = VNum q /\
               forall k, k <> "discountPercent" ->
                 get k doc = get k existing \/
                 (k = "category" /\ get k existing = VUndefined /\
                  get k doc = VStr "other")).
Proof.
  intros Hfind Hu merged validated Hv Hcheck.
  apply unique_NoDup in Hu.
  destruct (validated_keys existing (body req) Hu Hv) as [Hnd Hkeys].
  pose proof (validated_fields existing (body req) Hv) as Hfield.
  fold merged in Hfield. fold validated in Hnd, Hkeys, Hfield.
  assert (Hdoc : forall k, lookup k (spread existing validated) =
                           match lookup k validated with
                           | Some v => Some v
                           | None => lookup k existing
                           end).
  { intros k. now rewrite lookup_spread, lookup_rev. }
  exists (spread existing validated). split; [|split; [|split; [|split; [|split]]]].
  - exact (updatePerk_accepted st req existing Hfind Hv Hcheck).
  - exact Hdoc.
  - exact Hkeys.
  - intros k Hk. rewrite Hdoc.
    destruct (lookup k validated) eqn:Hl; auto.
    apply lookup_In_keys in Hl. now apply Hkeys in Hl.
  - intros k Hk. apply (field_frame existing merged validated k Hdoc Hkeys Hfield).
    apply get_lookup. unfold merged, toObject. now apply lookup_spread_out.
  - intros q Hb.
    assert (Hm : forall k, get k merged =
                           if String.eqb k "discountPercent" then VNum q
                           else get k existing).
    { intros k. unfold merged. rewrite Hb. apply get_merged_discount. }
    split.
    + destruct (Hfield _ perkSchema_discount) as [He Hg].
      pose proof (field_written E updatePrefs merged _ perkSchema_discount He)
        as Hw.
      cbv zeta in Hw. rewrite <- Hg in Hw. cbn [fst] in Hw.
      rewrite (Hm "discountPercent"), String.eqb_refl in Hw.
      apply (get_updated existing validated _ _ Hdoc); [discriminate|].
      destruct Hw as [Hw|[[Hk _]|[_ [[Hun _]|[x [q' [Hx _]]]]]]];
        [exact Hw | discriminate .. ].
    + intros k Hk.
      assert (Hmk : get k merged = get k existing).
      { rewrite Hm. apply String.eqb_neq in Hk. now rewrite Hk. }
      destruct (field_frame existing merged validated k Hdoc Hkeys Hfield Hmk)
        as [H|[H|[H _]]]; auto. contradiction.
Qed.

(** ** The creator resolution *)

Lemma map_get_set k k' u m :
  map_get k (map_set k' u m) = if String.eqb k k' then Some u else map_get k m.
Proof.
  induction m as [|[k2 u2] rest IH]; simpl.
  - reflexivity.
  - destruct (String.eqb_spec k' k2) as [->|Hne]; simpl.
    + destruct (String.eqb k k2); reflexivity.
    + rewrite IH. destruct (String.eqb_spec k k2) as [->|Hk]; auto.
      destruct (String.eqb_spec k2 k'); congruence.
Qed.

Lemma Map_of_In entries k u :
  map_get k (Map_of entries) = Some u -> In u (map snd entries).
Proof.
  unfold Map_of.
  assert (H : forall m,
             map_get k (fold_left (fun m kv => map_set (fst kv) (snd kv) m)
                                  entries m) = Some u ->
             In u (map snd entries) \/ map_get k m = Some u).
  { induction entries as [|[k' u'] rest IH]; intros m; simpl; auto.
    intros Hg. destruct (IH _ Hg) as [Hin|Hm]; auto.
    rewrite map_get_set in Hm.
    destruct (String.eqb k k'); auto. injection Hm as ->. auto. }
  intros Hg. destruct (H [] Hg) as [Hin|Hm]; auto. discriminate.
Qed.

Lemma present_In {A : Type} (l : list (option A)) (x : A) :
  In x (present l) -> In (Some x) l.
Proof.
  induction l as [|[y|] rest IH]; simpl; auto.
  intros [->|Hin]; auto.
Qed.

Lemma lookup_key_In st key u : lookup_key st key = Some u -> In u (users st).
Proof.
  unfold lookup_key, User_findOne_email, User_findOne_name.
  destruct (includes_char "@" key); intros H; apply find_some in H; tauto.
Qed.

Lemma attach_cases st m1 m2 p :
  (forall k u, map_get k m1 = Some u -> In u (users st)) ->
  (forall k u, map_get k m2 = Some u -> In u (users st)) ->
  user_record st (get "createdBy" (attach E m1 m2 p)) \/
  get "createdBy" (attach E m1 m2 p) = VNull \/
  (truthy (get "createdBy" p) = false /\ attach E m1 m2 p = p).
Proof.
  intros H1 H2. unfold attach.
  destruct (truthy (get "createdBy" p)); simpl; [|auto].
  set (cb := js_String E (get "createdBy" p)).
  unfold map_has, map_get_value.
  destruct (map_get cb m1) as [u|] eqn:Hu1.
  { left. rewrite get_set_eq. exists u. eauto. }
  destruct (map_get cb m2) as [u|] eqn:Hu2; simpl.
  { left. rewrite get_set_eq. exists u. eauto. }
  destruct (map_get (toLowerCase cb) m2) as [u|] eqn:Hu3; simpl.
  { left. rewrite get_set_eq. exists u. eauto. }
  right. left. apply get_set_eq.
Qed.

(** C1 (as amended). [getAllPerksPublic] always answers 200 with a list of
    perks, and the [createdBy] of each perk of the list is the record of a
    user of the store, or null, or the empty or absent value that the
    stored perk carries, left as it is; it is never a non-empty string. *)
Theorem getAllPerksPublic_creators st req :
  exists found,
    getAllPerksPublic E st req = (Respond 200 (ManyPerks found), st) /\
    forall p, In p found ->
      (user_record st (get "createdBy" p) \/
       get "createdBy" p = VNull \/
       (truthy (get "createdBy" p) = false /\ In p (perks st))) /\
      (forall s, get "createdBy" p = VStr s -> s = "").
Proof.
  unfold getAllPerksPublic. cbn [try_catch].
  match goal with
  | |- context [Perk_find E st ?q] => generalize q; intros query
  end.
  eexists. split; [reflexivity|].
  assert (Hstored : forall p, In p (sort_createdAt_desc (Perk_find E st query)) ->
                              In p (perks st)).
  { intros p Hin. unfold sort_createdAt_desc in Hin.
    apply (Permutation_in p (sort_desc_perm _)) in Hin.
    unfold Perk_find in Hin. apply filter_In in Hin. tauto. }
  assert (Hcases : forall p,
    In p (if Nat.ltb 0 (length (sort_createdAt_desc (Perk_find E st query)))
          then resolve_creators E st (sort_createdAt_desc (Perk_find E st query))
          else sort_createdAt_desc (Perk_find E st query)) ->
    user_record st (get "createdBy" p) \/
    get "createdBy" p = VNull \/
    (truthy (get "createdBy" p) = false /\ In p (perks st))).
  { intros p Hin.
    destruct (sort_createdAt_desc (Perk_find E st query)) as [|p0 rest] eqn:Hs;
      [contradiction|].
    cbn [length Nat.ltb Nat.leb] in Hin.
    unfold resolve_creators in Hin.
    destruct (collect_keys E (p0 :: rest)) as [idSet stringKeys].
    apply in_map_iff in Hin. destruct Hin as [p1 [<- Hin]].
    match goal with
    | |- context [attach E ?a ?b p1] =>
        destruct (attach_cases st a b p1) as [H|[H|[H Heq]]]; auto
    end.
    - intros k u Hg. apply Map_of_In in Hg. rewrite map_map in Hg.
      cbn [snd] in Hg. rewrite map_id in Hg.
      destruct (Nat.ltb 0 (length idSet)); [|contradiction].
      unfold User_find_in in Hg. apply filter_In in Hg. tauto.
    - intros k u Hg. apply Map_of_In in Hg. rewrite map_map in Hg.
      cbn [snd] in Hg. rewrite map_id in Hg.
      destruct (Nat.ltb 0 (length stringKeys)); [|contradiction].
      apply present_In in Hg. apply in_map_iff in Hg.
      destruct Hg as [key [Hk _]]. now apply lookup_key_In in Hk.
    - right. right. rewrite Heq. split; auto. }
  intros p Hin. split; [now apply Hcases|].
  intros s Hs. destruct (Hcases p Hin) as [[u [_ Hu]]|[H|[H _]]].
  - rewrite Hs in Hu. discriminate.
  - rewrite Hs in H. discriminate.
  - rewrite Hs in H. simpl in H. apply negb_false_iff in H.
    now apply String.eqb_eq in H.
Qed.

End HandlerTheorems.

(* ================================================================== *)
(** * What the schema accepts *)
(* ================================================================== *)

Section AcceptanceFacts.

Variable E : Env.

Lemma Qle_bool_length x :
  Qle_bool 2 (inject_Z (Z.of_nat (String.length x))) = true <->
  (2 <= String.length x)%nat.
Proof.
  change 2%Q with (inject_Z 2).
  rewrite Qle_bool_iff, <- Zle_Qle. lia.
Qed.

Lemma title_passes p path v :
  r_errors (validate_schema E p titleSchema path v) = [] <-> title_ok v.
Proof.
  unfold title_ok, validate_schema, validate_coerced.
  destruct v as [| | | |x| | | |]; cbn -[Qle_bool String.length String.eqb].
  all: try (split; [discriminate | intros [x' [H _]]; discriminate]).
  destruct (String.eqb_spec x "") as [->|Hx]; cbn -[Qle_bool String.length].
  - split; [discriminate|]. intros [x' [H Hl]]. inversion H; subst. simpl in Hl. lia.
  - pose proof (Qle_bool_length x) as Hq.
    destruct (Qle_bool 2 (inject_Z (Z.of_nat (String.length x)))).
    + split; [|reflexivity]. intros _. exists x. split; auto. now apply Hq.
    + split.
      * destruct (abortEarly p); discriminate.
      * intros [x' [H Hl]]. inversion H; subst. apply Hq in Hl. discriminate.
Qed.

Lemma text_passes p path v :
  r_errors (validate_schema E p textSchema path v) = [] <-> text_ok v.
Proof.
  unfold text_ok, is_string, validate_schema, validate_coerced.
  destruct v as [| | | |x| | | |]; cbn -[String.eqb].
  all: try (split; [discriminate | intros [H|[x' H]]; discriminate]).
  - split; auto.
  - split; [intros _; eauto|intros _].
    destruct (String.eqb x ""); [reflexivity|].
    cbn -[String.eqb]. destruct (String.eqb x ""); reflexivity.
Qed.

Lemma forbidden_passes p path v :
  r_errors (validate_schema E p Joi.forbidden path v) = [] <-> v = VUndefined.
Proof.
  unfold validate_schema, validate_coerced.
  destruct v; cbn; split; try discriminate; auto.
Qed.

Lemma category_passes p path v :
  r_errors (validate_schema E p categorySchema path v) = [] <-> category_ok v.
Proof.
  unfold category_ok. split.
  - intros He. destruct (is_undefined v) eqn:Hu.
    + left. now destruct v.
    + right.
      pose proof (category_valid E p path v He) as Hin.
      rewrite validate_schema_keeps in Hin; try easy.
      * unfold finalize in Hin. simpl in Hin. now rewrite Hu in Hin.
      * simpl. repeat constructor; unfold is_string; eauto.
  - intros [->|Hin]; [reflexivity|].
    simpl in Hin. repeat destruct Hin as [<-|Hin]; try reflexivity. contradiction.
Qed.

Lemma discount_coerced_in p path q :
  0 <= q -> q <= 100 ->
  r_errors (validate_coerced E p discountSchema path (VNum q)) = [].
Proof.
  intros H0 H1.
  assert (Hmax : Qle_bool q max_safe_integer = true).
  { apply Qle_bool_iff. apply (Qle_trans _ 100); [assumption|]. easy. }
  assert (Hmin : Qle_bool (- max_safe_integer) q = true).
  { apply Qle_bool_iff. apply (Qle_trans _ 0); [easy|assumption]. }
  apply Qle_bool_iff in H0, H1.
  unfold validate_coerced. cbn -[Qle_bool Qopp max_safe_integer].
  rewrite Hmax, Hmin. cbn -[Qle_bool Qopp max_safe_integer].
  rewrite H0. cbn -[Qle_bool Qopp max_safe_integer].
  rewrite H1. reflexivity.
Qed.

Lemma discount_passes p path v :
  r_errors (validate_schema E p discountSchema path v) = [] <->
  discount_ok E p v.
Proof.
  unfold discount_ok. split.
  - intros He. destruct v as [| | |q|x| | | |]; try discriminate.
    + now left.
    + right. left. exists q. split; auto.
      now apply (discount_coerced_range E p path q).
    + right. right. revert He. unfold validate_schema.
      cbn [coerce discountSchema s_type Joi.default Joi.max Joi.min Joi.number].
      destruct (convert p); [|discriminate].
      destruct (numberCoerce E x) as [|q|q] eqn:Hn; try discriminate.
      intros He. split; auto. exists x, q. repeat split; auto;
        now apply (discount_coerced_range E p path q).
  - intros [->|[[q [-> [H0 H1]]]|[Hc [x [q [-> [Hn [H0 H1]]]]]]]].
    + reflexivity.
    + now apply discount_coerced_in.
    + unfold validate_schema.
      cbn [coerce discountSchema s_type Joi.default Joi.max Joi.min Joi.number].
      rewrite Hc, Hn. now apply discount_coerced_in.
Qed.

Lemma flat_map_all_nil {A B : Type} (f : A -> list B) (l : list A) :
  (forall x, In x l -> f x = []) -> flat_map f l = [].
Proof.
  induction l as [|x rest IH]; simpl; auto.
  intros H. rewrite (H x), IH; auto.
Qed.

Lemma validate_nil_iff sch o p :
  NoDup (map fst (children sch)) ->
  r_errors (validate E sch (VObject o) p) = [] <->
  (forall c, In c (children sch) -> child_errors E p o c = []) /\
  (stripUnknown p = true \/ allowUnknown p = true \/
   unprocessed (children sch) o = []).
Proof.
  intros Hnd.
  assert (Hall : errors_children E p (children sch) o = [] <->
                 forall c, In c (children sch) -> child_errors E p o c = []).
  { rewrite errors_children_flat_map by assumption. split.
    - intros H c Hin. exact (flat_map_nil _ _ c H Hin).
    - apply flat_map_all_nil. }
  rewrite <- Hall. clear Hall. unfold validate.
  destruct p as [a u c s]. destruct a.
  - pose proof (validate_children_abort E (mkPrefs true u c s) (children sch) o [])
      as H.
    unfold with_abortEarly in H.
    cbn [abortEarly allowUnknown convert stripUnknown] in H.
    destruct (errors_children E (mkPrefs true u c s) (children sch) o).
    + rewrite H. unfold unknown. cbn [abortEarly allowUnknown stripUnknown].
      destruct s; [simpl; tauto|]. destruct u; [simpl; tauto|].
      destruct (unprocessed (children sch) o); simpl.
      * tauto.
      * split; [discriminate|]. intros [_ [?|[?|?]]]; discriminate.
    + destruct H as [value' ->]. simpl. split; [discriminate|].
      intros [? _]; discriminate.
  - rewrite validate_children_collect by reflexivity. simpl.
    unfold unknown. cbn [abortEarly allowUnknown stripUnknown].
    destruct s; [simpl; tauto|]. destruct u; [simpl; tauto|].
    destruct (unprocessed (children sch) o); simpl.
    + tauto.
    + split.
      * intros H. apply app_eq_nil in H. destruct H; discriminate.
      * intros [_ [?|[?|?]]]; discriminate.
Qed.

Lemma unprocessed_nil_iff o :
  unprocessed (children perkSchema) o = [] <->
  forall k, In k (keys o) -> In k (map fst (children perkSchema)).
Proof.
  split.
  - intros Hu k Hk.
    destruct (in_dec string_dec k (map fst (children perkSchema))); auto.
    assert (Hin : In k (unprocessed (children perkSchema) o))
      by (apply unprocessed_In; auto).
    rewrite Hu in Hin. contradiction.
  - intros H. destruct (unprocessed (children perkSchema) o) as [|k l] eqn:Hu; auto.
    assert (Hin : In k (unprocessed (children perkSchema) o))
      by (rewrite Hu; now left).
    apply unprocessed_In in Hin. destruct Hin as [Hk Hn]. now apply H in Hk.
Qed.

Lemma perkSchema_accepts p o :
  r_errors (validate E perkSchema (VObject o) p) = [] <-> acceptable E p o.
Proof.
  rewrite (validate_nil_iff perkSchema o p perkSchema_NoDup).
  unfold acceptable, keys_ok. rewrite <- unprocessed_nil_iff.
  rewrite <- (title_passes p ["title"]), <- (text_passes p ["description"]),
    <- (category_passes p ["category"]),
    <- (discount_passes p ["discountPercent"]),
    <- (text_passes p ["merchant"]), <- (forbidden_passes p ["ccreatedBy"]).
  split.
  - intros [Hc Hu]. repeat split; try exact Hu.
    all: match goal with
         | |- r_errors (validate_schema _ _ ?s [?k] _) = [] =>
             apply (Hc (k, s)); simpl; auto 10
         end.
  - intros [H1 [H2 [H3 [H4 [H5 [H6 Hu]]]]]]. split; [|exact Hu].
    intros c Hin. simpl in Hin.
    repeat destruct Hin as [<-|Hin]; try contradiction; assumption.
Qed.

(** X1. Under any preferences the validation of an object passes exactly
    when each field is admissible (and unknown keys are no obstacle).
    [createPerk] answers 400 exactly when the payload is not admissible; an
    admissible payload without a caller ends in a TypeError for the error
    handler, and nothing is stored. *)
Theorem perkSchema_accepts_exactly p o st req :
  (r_errors (validate E perkSchema (VObject o) p) = [] <-> acceptable E p o) /\
  (body req = VObject o ->
   ((exists message, createPerk E st req = (Respond 400 (Message message), st))
    <-> ~ acceptable E createPrefs o) /\
   (acceptable E createPrefs o -> user req = None ->
    createPerk E st req = (Next TypeError, st))).
Proof.
  split; [apply perkSchema_accepts|].
  intros Hb. pose proof (perkSchema_accepts createPrefs o) as Hacc.
  unfold createPerk. rewrite Hb.
  destruct (r_errors (validate E perkSchema (VObject o) createPrefs)) as [|d l].
  - split.
    + split; [|intros Hn; exfalso; apply Hn; now apply Hacc].
      intros [message H]. exfalso. revert H.
      destruct (user req); cbn [bind try_catch]; [|discriminate].
      destruct (Perk_create E st _) as [[doc st']|e]; cbn [bind try_catch fst snd];
        [discriminate|].
      destruct (is_duplicate_key e); discriminate.
    + intros _ ->. reflexivity.
  - split.
    + split; [|intros _; eexists; reflexivity].
      intros _ Ha. apply Hacc in Ha. discriminate.
    + intros Ha. apply Hacc in Ha. discriminate.
Qed.

(** X2. The title is judged first: whenever the title of a creation
    payload is missing, not a string, or shorter than two characters, the
    400 of [createPerk] carries one violation, that of the title, whatever
    else is wrong with the payload; for a missing title the message is
    ["title" is required]. *)
Theorem createPerk_reports_title_first st req o :
  body req = VObject o ->
  ~ title_ok (get "title" o) ->
  exists d,
    r_errors (validate E perkSchema (VObject o) createPrefs) = [d] /\
    d_path d = ["title"] /\
    createPerk E st req = (Respond 400 (Message (d_message d)), st) /\
    (get "title" o = VUndefined ->
     d_message d = (label ["title"] ++ " is required")%string).
Proof.
  intros Hb Ht.
  pose proof (validate_abort_errors E perkSchema o createPrefs eq_refl eq_refl)
    as He.
  change (with_abortEarly true createPrefs) with createPrefs in He.
  rewrite errors_children_flat_map in He by apply perkSchema_NoDup.
  cbn [flat_map children perkSchema Joi.object] in He.
  pose proof (validate_schema_abort_short E createPrefs titleSchema ["title"]
                                          (get "title" o)) as Hlen.
  pose proof (validate_schema_paths E createPrefs titleSchema ["title"]
                                    (get "title" o)) as Hpath.
  change (with_abortEarly true createPrefs) with createPrefs in Hlen.
  unfold child_errors at 1, child_result in He. cbn [fst snd] in He.
  change (Joi.required (Joi.min 2 Joi.string)) with titleSchema in He.
  destruct (r_errors (validate_schema E createPrefs titleSchema ["title"]
                                      (get "title" o))) as [|d l] eqn:Hd.
  { exfalso. apply Ht. now apply (title_passes createPrefs ["title"]). }
  destruct l; [|simpl in Hlen; lia].
  cbn [app] in He. exists d. split; [exact He|].
  split; [now inversion Hpath|]. split.
  - unfold createPerk. rewrite Hb, He. reflexivity.
  - intros Hu. rewrite Hu in Hd. cbn in Hd. injection Hd as <-. reflexivity.
Qed.

(** ** Validating twice *)

(** Writing the value a property has leaves the object as it is. *)
Lemma set_same k v o : lookup k o = Some v -> set k v o = o.
Proof.
  induction o as [|[k' v'] rest IH]; simpl; [discriminate|].
  destruct (String.eqb_spec k k') as [->|Hne].
  - intros H. now injection H as ->.
  - intros H. now rewrite IH.
Qed.

(** A result without errors that gives the value back leaves the object as
    it is. *)
Lemma store_result_fixed k r o :
  r_errors r = [] -> r_value r = get k o ->
  store_result k (get k o) r o = o.
Proof.
  intros He Hv. unfold store_result. rewrite He, Hv.
  destruct (is_undefined (get k o)) eqn:Hu; simpl; auto.
  apply set_same. apply get_defined_lookup.
  intros H. rewrite H in Hu. discriminate.
Qed.

Lemma apply_children_fixed p cs o :
  (forall c, In c cs ->
             child_errors E p o c = [] /\
             r_value (child_result E p o c) = get (fst c) o) ->
  apply_children E p cs o = o.
Proof.
  induction cs as [|c rest IH]; intros H; simpl; auto.
  destruct (H c (or_introl eq_refl)) as [He Hv].
  rewrite store_result_fixed by assumption.
  apply IH. intros c' Hin. apply H. now right.
Qed.

(** The value of a validation that passes. *)
Lemma validate_value sch o p :
  NoDup (map fst (children sch)) ->
  r_errors (validate E sch (VObject o) p) = [] ->
  r_value (validate E sch (VObject o) p) =
    VObject (if stripUnknown p
             then fold_left (fun v k => delete k v)
                            (unprocessed (children sch) o)
                            (apply_children E p (children sch) o)
             else apply_children E p (children sch) o).
Proof.
  intros Hnd. unfold validate.
  destruct p as [a u c s]. destruct a.
  - pose proof (validate_children_abort E (mkPrefs true u c s) (children sch) o [])
      as H.
    unfold with_abortEarly in H.
    cbn [abortEarly allowUnknown convert stripUnknown] in H.
    destruct (errors_children E (mkPrefs true u c s) (children sch) o).
    + rewrite H. unfold unknown. cbn [abortEarly allowUnknown stripUnknown].
      destruct s; [reflexivity|]. destruct u; [reflexivity|].
      destruct (unprocessed (children sch) o); [reflexivity|discriminate].
    + destruct H as [value' ->]. discriminate.
  - rewrite validate_children_collect by reflexivity.
    unfold unknown. cbn [abortEarly allowUnknown stripUnknown].
    destruct s; [reflexivity|]. destruct u; [reflexivity|].
    destruct (unprocessed (children sch) o); reflexivity.
Qed.

(** What a field's schema hands back passes again, unchanged. *)
Lemma field_idempotent p c v :
  In c (children perkSchema) ->
  r_errors (validate_schema E p (snd c) [fst c] v) = [] ->
  r_errors (validate_schema E p (snd c) [fst c]
              (r_value (validate_schema E p (snd c) [fst c] v))) = [] /\
  r_value (validate_schema E p (snd c) [fst c]
             (r_value (validate_schema E p (snd c) [fst c] v))) =
  r_value (validate_schema E p (snd c) [fst c] v).
Proof.
  assert (Hsame : forall s path,
             r_errors (validate_schema E p s path v) = [] ->
             r_value (validate_schema E p s path v) = v ->
             r_errors (validate_schema E p s path
                         (r_value (validate_schema E p s path v))) = [] /\
             r_value (validate_schema E p s path
                        (r_value (validate_schema E p s path v))) =
             r_value (validate_schema E p s path v)).
  { intros s path He Hv. rewrite Hv. auto. }
  assert (Hnum : forall q path, 0 <= q -> q <= 100 ->
             r_errors (validate_schema E p discountSchema path (VNum q)) = [] /\
             r_value (validate_schema E p discountSchema path (VNum q)) = VNum q).
  { intros q path H0 H1.
    pose proof (discount_coerced_in p path q H0 H1) as He.
    split; [exact He|]. now apply (discount_coerced_range E p path q). }
  intros Hin He. simpl in Hin.
  repeat destruct Hin as [<-|Hin]; try contradiction; cbn [fst snd] in *.
  - (* title *)
    apply Hsame; auto. rewrite validate_schema_keeps; try easy.
    apply title_passes in He. now destruct He as [x [-> _]].
  - (* description *)
    apply Hsame; auto. rewrite validate_schema_keeps; try easy.
    + unfold finalize. simpl. now destruct (is_undefined v).
    + simpl. repeat constructor. unfold is_string. eauto.
  - (* category *)
    pose proof (category_valid E p ["category"] v He) as Hc.
    change (Joi.default (VStr "other")
              (Joi.valid [VStr "food"; VStr "tech"; VStr "travel";
                          VStr "fitness"; VStr "other"] Joi.string))
      with categorySchema in *.
    assert (He2 : r_errors (validate_schema E p categorySchema ["category"]
                     (r_value (validate_schema E p categorySchema ["category"] v)))
                  = []).
    { apply category_passes. now right. }
    split; [exact He2|].
    rewrite (validate_schema_keeps E p categorySchema ["category"]
               (r_value (validate_schema E p categorySchema ["category"] v)));
      try easy.
    + unfold finalize. cbn [r_value].
      destruct (r_value (validate_schema E p categorySchema ["category"] v)) eqn:Hr;
        try reflexivity.
      exfalso. simpl in Hc. intuition discriminate.
    + simpl. repeat constructor; unfold is_string; eauto.
  - (* discountPercent *)
    change (Joi.default (VNum 0) (Joi.max 100 (Joi.min 0 Joi.number)))
      with discountSchema in *.
    destruct (discount_range E p ["discountPercent"] v He) as [q [Hq [H0 H1]]].
    rewrite Hq. now apply Hnum.
  - (* merchant *)
    apply Hsame; auto. rewrite validate_schema_keeps; try easy.
    + unfold finalize. simpl. now destruct (is_undefined v).
    + simpl. repeat constructor. unfold is_string. eauto.
  - (* ccreatedBy *)
    apply Hsame; auto. apply forbidden_passes in He. now subst.
Qed.

Lemma VObject_inj a b : VObject a = VObject b -> a = b.
Proof. intros H. now injection H. Qed.

(** X17. Validation is idempotent: the value of a validation that passes,
    validated again under the same preferences, passes and comes back as it
    is. *)
Theorem validate_idempotent p o o' :
  r_errors (validate E perkSchema (VObject o) p) = [] ->
  r_value (validate E perkSchema (VObject o) p) = VObject o' ->
  validate E perkSchema (VObject o') p = mkResult (VObject o') [].
Proof.
  intros He Hv.
  pose proof (validate_value perkSchema o p perkSchema_NoDup He) as Hval.
  rewrite Hv in Hval. apply VObject_inj in Hval. rename Hval into Ho'.
  destruct (validate_ok E perkSchema o p perkSchema_NoDup He)
    as [value' [Hr Hf]].
  rewrite Hv in Hr. apply VObject_inj in Hr. subst value'.
  apply (validate_nil_iff perkSchema o p perkSchema_NoDup) in He.
  destruct He as [_ Hunk].
  (* every field of the value passes again, unchanged *)
  assert (Hfix : forall c, In c (children perkSchema) ->
             child_errors E p o' c = [] /\
             r_value (child_result E p o' c) = get (fst c) o').
  { intros c Hin. destruct (Hf c Hin) as [Hce Hcv].
    unfold child_errors, child_result in *. rewrite Hcv.
    now apply field_idempotent. }
  (* the unknown keys of the value are those that were let through *)
  assert (Hkeys : forall k, In k (unprocessed (children perkSchema) o') ->
                            stripUnknown p = false /\
                            In k (unprocessed (children perkSchema) o)).
  { intros k Hk. apply unprocessed_In in Hk. destruct Hk as [Hk Hn].
    rewrite Ho' in Hk. destruct (stripUnknown p).
    - apply keys_strip in Hk. destruct Hk as [Hk Hun].
      exfalso. apply Hun. apply unprocessed_In. split; auto.
      apply keys_apply_children in Hk. tauto.
    - split; auto. apply unprocessed_In. split; auto.
      apply keys_apply_children in Hk. tauto. }
  assert (Hunk' : stripUnknown p = true \/ allowUnknown p = true \/
                  unprocessed (children perkSchema) o' = []).
  { destruct Hunk as [H|[H|H]]; auto.
    right. right.
    destruct (unprocessed (children perkSchema) o') as [|k l] eqn:Hu; auto.
    destruct (Hkeys k (or_introl eq_refl)) as [_ Hin]. rewrite H in Hin.
    contradiction. }
  assert (He' : r_errors (validate E perkSchema (VObject o') p) = []).
  { apply (validate_nil_iff perkSchema o' p perkSchema_NoDup).
    split; [|exact Hunk']. intros c Hin. now apply Hfix. }
  pose proof (validate_value perkSchema o' p perkSchema_NoDup He') as Hval'.
  rewrite (apply_children_fixed p (children perkSchema) o' Hfix) in Hval'.
  assert (Hfinal : r_value (validate E perkSchema (VObject o') p) = VObject o').
  { rewrite Hval'. destruct (stripUnknown p) eqn:Hs; auto.
    destruct (unprocessed (children perkSchema) o') as [|k l] eqn:Hu; auto.
    destruct (Hkeys k (or_introl eq_refl)) as [H _]. discriminate. }
  destruct (validate E perkSchema (VObject o') p) as [v errs].
  cbn [r_value r_errors] in He', Hfinal. now subst.
Qed.

End AcceptanceFacts.

(* ================================================================== *)
(** * Identifiers: lookup and removal *)
(* ================================================================== *)

Section IdentifierFacts.

Variable E : Env.

Lemma has_id_iff hex d : has_id hex d = true <-> get "_id" d = VObjectId hex.
Proof.
  unfold has_id. destruct (get "_id" d); try (split; discriminate).
  rewrite String.eqb_eq. split; congruence.
Qed.

Lemma find_has_id_none hex l :
  find (has_id hex) l = None <->
  forall d, In d l -> get "_id" d <> VObjectId hex.
Proof.
  split.
  - intros H d Hin Hid. apply has_id_iff in Hid.
    pose proof (find_none _ _ H d Hin). congruence.
  - intros H. destruct (find (has_id hex) l) as [d|] eqn:Hf; auto.
    apply find_some in Hf. destruct Hf as [Hin Hid].
    apply has_id_iff in Hid. now apply H in Hin.
Qed.

Lemma find_distinct hex l d :
  distinct_ids l = true -> In d l -> get "_id" d = VObjectId hex ->
  find (has_id hex) l = Some d.
Proof.
  induction l as [|x rest IH]; simpl; [easy|].
  rewrite andb_true_iff. intros [Hx Hr] Hin Hid.
  destruct (has_id hex x) eqn:Hhx.
  - destruct Hin as [->|Hin]; auto.
    apply has_id_iff in Hhx. rewrite Hhx in Hx.
    apply negb_true_iff in Hx. apply not_true_iff_false in Hx.
    exfalso. apply Hx. apply existsb_exists. exists d. split; auto.
    now apply has_id_iff.
  - destruct Hin as [->|Hin]; auto.
    apply has_id_iff in Hid. congruence.
Qed.

Lemma remove_first_perm (f : obj -> bool) l d :
  find f l = Some d -> Permutation l (d :: remove_first f l).
Proof.
  induction l as [|x rest IH]; simpl; [discriminate|].
  destruct (f x).
  - intros H. injection H as ->. reflexivity.
  - intros H. rewrite (IH H) at 1. apply perm_swap.
Qed.

Lemma find_remove_first_distinct hex l :
  distinct_ids l = true ->
  find (has_id hex) (remove_first (has_id hex) l) = None.
Proof.
  induction l as [|x rest IH]; simpl; auto.
  rewrite andb_true_iff. intros [Hx Hr].
  destruct (has_id hex x) eqn:Hhx; simpl.
  - apply has_id_iff in Hhx. rewrite Hhx in Hx.
    apply negb_true_iff in Hx.
    destruct (find (has_id hex) rest) as [d|] eqn:Hf; auto.
    apply find_some in Hf. destruct Hf as [Hin Hd].
    apply not_true_iff_false in Hx. exfalso. apply Hx.
    apply existsb_exists. eauto.
  - rewrite Hhx. auto.
Qed.

(** X5. Deleting a stored perk by its identifier, in a collection without
    repeated identifiers, answers 200, removes that perk and nothing else,
    and leaves the users alone; after that the same identifier is not
    found: [getPerk] and a second [deletePerk] both answer 404. *)
Theorem deletePerk_removes st req d :
  isValid E (params_id req) = true ->
  distinct_ids (perks st) = true ->
  In d (perks st) ->
  get "_id" d = VObjectId (castId E (params_id req)) ->
  exists st',
    deletePerk E st req = (Respond 200 Acknowledge, st') /\
    Permutation (perks st) (d :: perks st') /\
    users st' = users st /\
    getPerk E st' req = (Respond 404 (Message "Perk not found"), st') /\
    deletePerk E st' req = (Respond 404 (Message "Perk not found"), st').
Proof.
  intros Hv Hd Hin Hid.
  pose proof (find_distinct _ _ _ Hd Hin Hid) as Hf.
  pose proof (find_remove_first_distinct (castId E (params_id req)) _ Hd) as Hn.
  exists (mkStore (remove_first (has_id (castId E (params_id req))) (perks st))
                  (users st)).
  split.
  { unfold deletePerk, Perk_findByIdAndDelete. rewrite Hv, Hf. reflexivity. }
  split; [now apply remove_first_perm|]. split; [reflexivity|].
  unfold getPerk, deletePerk, Perk_findById, Perk_findByIdAndDelete.
  cbn [perks users]. rewrite Hv, Hn. split; reflexivity.
Qed.

(** X6. For a well-formed identifier that no stored perk carries,
    [getPerk], [updatePerk] and [deletePerk] answer 404, whatever the
    payload, and leave the store as it is. *)
Theorem unknown_id_not_found st req :
  isValid E (params_id req) = true ->
  (forall d, In d (perks st) ->
             get "_id" d <> VObjectId (castId E (params_id req))) ->
  getPerk E st req = (Respond 404 (Message "Perk not found"), st) /\
  updatePerk E st req = (Respond 404 (Message "Perk not found"), st) /\
  deletePerk E st req = (Respond 404 (Message "Perk not found"), st).
Proof.
  intros Hv Hn. apply find_has_id_none in Hn.
  unfold getPerk, updatePerk, deletePerk, Perk_findById, Perk_findByIdAndDelete.
  rewrite Hv, Hn. repeat split; reflexivity.
Qed.

(** X7. In a collection without repeated identifiers, [getPerk] answers
    200 with the stored perk that carries the identifier of the request. *)
Theorem getPerk_finds st req d :
  isValid E (params_id req) = true ->
  distinct_ids (perks st) = true ->
  In d (perks st) ->
  get "_id" d = VObjectId (castId E (params_id req)) ->
  getPerk E st req = (Respond 200 (OnePerk d), st).
Proof.
  intros Hv Hd Hin Hid.
  unfold getPerk, Perk_findById.
  now rewrite Hv, (find_distinct _ _ _ Hd Hin Hid).
Qed.

End IdentifierFacts.

(* ================================================================== *)
(** * Writes: update and creation *)
(* ================================================================== *)

Section WriteFacts.

Variable E : Env.

Lemma find_replace_first (f : obj -> bool) d l x :
  find f l = Some x -> f d = true -> find f (replace_first f d l) = Some d.
Proof.
  induction l as [|y rest IH]; simpl; [discriminate|].
  destruct (f y) eqn:Hy; simpl.
  - intros _ ->. reflexivity.
  - rewrite Hy. auto.
Qed.

Lemma length_replace_first (f : obj -> bool) d l :
  length (replace_first f d l) = length l.
Proof.
  induction l as [|y rest IH]; simpl; auto.
  destruct (f y); simpl; auto.
Qed.

(** What a 200 of [updatePerk] tells. *)
Lemma updatePerk_200_inv st req doc st' :
  updatePerk E st req = (Respond 200 (OnePerk doc), st') ->
  exists existing,
    isValid E (params_id req) = true /\
    find (has_id (castId E (params_id req))) (perks st) = Some existing /\
    let validated :=
      own_props (r_value (validate E perkSchema
                   (VObject (spread (toObject existing) (own_props (body req))))
                   updatePrefs)) in
    r_errors (validate E perkSchema
                (VObject (spread (toObject existing) (own_props (body req))))
                updatePrefs) = [] /\
    doc = spread existing validated /\
    st' = mkStore (replace_first (has_id (castId E (params_id req))) doc (perks st))
                  (users st).
Proof.
  unfold updatePerk, Perk_findById, Perk_findByIdAndUpdate.
  destruct (isValid E (params_id req)) eqn:Hv; [|discriminate].
  cbn [bind].
  destruct (find (has_id (castId E (params_id req))) (perks st)) as [existing|]
    eqn:Hf; [|discriminate].
  destruct (r_errors (validate E perkSchema
              (VObject (spread (toObject existing) (own_props (body req))))
              updatePrefs)) eqn:He; [|discriminate].
  destruct (updateCheck E st (params_id req) _); [discriminate|].
  cbn [bind try_catch fst snd]. intros H. inversion H; subst.
  exists existing. cbv zeta. repeat split; auto.
Qed.

(** X8. Whenever [updatePerk] answers 200, the document it returns comes
    from the stored perk with that identifier and keeps every field that is
    not a key of the schema, in particular [_id], [createdBy] and
    [createdAt], whatever the payload says; the collection keeps its size,
    the users are untouched, and [getPerk] on the same identifier then
    returns the updated document. *)
Theorem updatePerk_keeps_identity st req doc st' :
  updatePerk E st req = (Respond 200 (OnePerk doc), st') ->
  exists existing,
    In existing (perks st) /\
    get "_id" existing = VObjectId (castId E (params_id req)) /\
    (forall k, ~ In k (map fst (children perkSchema)) ->
               lookup k doc = lookup k existing) /\
    get "_id" doc = get "_id" existing /\
    get "createdBy" doc = get "createdBy" existing /\
    get "createdAt" doc = get "createdAt" existing /\
    length (perks st') = length (perks st) /\
    users st' = users st /\
    getPerk E st' req = (Respond 200 (OnePerk doc), st').
Proof.
  intros H. destruct (updatePerk_200_inv _ _ _ _ H)
    as [existing [Hv [Hf [He [Hdoc Hst]]]]].
  exists existing.
  pose proof (find_some _ _ Hf) as [Hin Hid]. apply has_id_iff in Hid.
  assert (Hframe : forall k, ~ In k (map fst (children perkSchema)) ->
                             lookup k doc = lookup k existing).
  { intros k Hk. rewrite Hdoc. apply lookup_spread_out.
    rewrite validate_strip_collect by reflexivity. cbn [r_value own_props].
    intros Hkin. apply keys_strip in Hkin. destruct Hkin as [Hk1 Hk2].
    apply keys_apply_children in Hk1. destruct Hk1 as [Hk1|Hk1]; auto.
    apply Hk2. apply unprocessed_In. auto. }
  assert (Hget : forall k, ~ In k (map fst (children perkSchema)) ->
                           get k doc = get k existing).
  { intros k Hk. apply get_lookup. auto. }
  assert (Hout : forall k, In k ["_id"; "createdBy"; "createdAt"] ->
                           ~ In k (map fst (children perkSchema))).
  { intros k Hk. rewrite perkSchema_keys. simpl in *.
    intuition (subst; discriminate). }
  repeat split; auto.
  1-3: apply Hget, Hout; simpl; auto.
  - rewrite Hst. cbn [perks]. apply length_replace_first.
  - now rewrite Hst.
  - unfold getPerk, Perk_findById. rewrite Hv, Hst. cbn [perks bind].
    rewrite (find_replace_first _ doc _ existing Hf); [reflexivity|].
    apply has_id_iff. rewrite <- Hid. apply Hget, Hout. simpl; auto.
Qed.

(** What a 201 of [createPerk] tells. *)
Lemma createPerk_201_inv st req doc st' :
  createPerk E st req = (Respond 201 (OnePerk doc), st') ->
  exists id doc0,
    user req = Some id /\
    r_errors (validate E perkSchema (body req) createPrefs) = [] /\
    insertCheck E st doc0 = None /\
    get "createdBy" doc0 = VStr id /\
    doc = set "createdAt" (VDate (now E st))
              (set "_id" (VObjectId (newId E st)) doc0) /\
    st' = mkStore (perks st ++ [doc]) (users st).
Proof.
  unfold createPerk.
  destruct (r_errors (validate E perkSchema (body req) createPrefs));
    [|discriminate].
  destruct (user req) as [id|]; [|discriminate].
  cbn [bind]. unfold Perk_create.
  destruct (insertCheck E st _) eqn:Hc; cbn [bind try_catch fst snd].
  - destruct (is_duplicate_key e); discriminate.
  - intros H. inversion H; subst. eexists. eexists.
    repeat split; [exact Hc|]. unfold spread. cbn [fold_left fst snd].
    apply get_set_eq.
Qed.

(** X9. When the store hands out a fresh, well-formed identifier, the
    perk that [createPerk] answers with 201 carries it, and [getPerk] with
    that identifier on the new store returns that very document. *)
Theorem createPerk_then_getPerk st req doc st' lookup_req :
  createPerk E st req = (Respond 201 (OnePerk doc), st') ->
  params_id lookup_req = newId E st ->
  isValid E (newId E st) = true ->
  castId E (newId E st) = newId E st ->
  (forall d, In d (perks st) -> get "_id" d <> VObjectId (newId E st)) ->
  get "_id" doc = VObjectId (newId E st) /\
  getPerk E st' lookup_req = (Respond 200 (OnePerk doc), st').
Proof.
  intros H Hp Hv Hc Hfresh.
  destruct (createPerk_201_inv _ _ _ _ H)
    as [id [doc0 [_ [_ [_ [_ [Hdoc Hst]]]]]]].
  assert (Hid : get "_id" doc = VObjectId (newId E st)).
  { rewrite Hdoc, get_set_ne by discriminate. apply get_set_eq. }
  split; auto.
  unfold getPerk, Perk_findById. rewrite Hp, Hv, Hc, Hst. cbn [perks bind].
  apply (find_has_id_none (newId E st)) in Hfresh.
  assert (Hfind : forall l, find (has_id (newId E st)) l = None ->
            find (has_id (newId E st)) (l ++ [doc]) = Some doc).
  { induction l as [|x rest IH]; simpl.
    - intros _. apply has_id_iff in Hid. now rewrite Hid.
    - destruct (has_id (newId E st) x); [discriminate|auto]. }
  rewrite (Hfind _ Hfresh). reflexivity.
Qed.

(** What a 201 of [createPerk] stores: the validated value with the caller
    as its creator, an identifier and a creation time. *)
Lemma createPerk_201_doc st req doc st' :
  createPerk E st req = (Respond 201 (OnePerk doc), st') ->
  exists id,
    user req = Some id /\
    r_errors (validate E perkSchema (body req) createPrefs) = [] /\
    doc = set "createdAt" (VDate (now E st))
            (set "_id" (VObjectId (newId E st))
               (set "createdBy" (VStr id)
                  (own_props (r_value (validate E perkSchema (body req)
                                                createPrefs))))).
Proof.
  unfold createPerk.
  destruct (r_errors (validate E perkSchema (body req) createPrefs));
    [|discriminate].
  destruct (user req) as [id|]; [|discriminate].
  cbn [bind]. unfold Perk_create.
  destruct (insertCheck E st _); cbn [bind try_catch fst snd].
  - destruct (is_duplicate_key e); discriminate.
  - intros H. inversion H; subst. exists id. repeat split.
Qed.

(** X15. The perk that [createPerk] answers with 201 holds the payload:
    the title, the description and the merchant as they came in; the
    category as it came in, or ["other"] when the payload has none; the
    discount as the number that came in, 0 when the payload has none, and
    the number that a string converts to; the caller as its creator, with
    the identifier and the creation time that the store hands out. *)
Theorem createPerk_stores_payload st req o doc st' :
  body req = VObject o ->
  createPerk E st req = (Respond 201 (OnePerk doc), st') ->
  get "title" doc = get "title" o /\
  get "description" doc = get "description" o /\
  get "merchant" doc = get "merchant" o /\
  get "category" doc =
    (if is_undefined (get "category" o) then VStr "other"
     else get "category" o) /\
  (get "discountPercent" o = VUndefined -> get "discountPercent" doc = VNum 0) /\
  (forall q, get "discountPercent" o = VNum q ->
             get "discountPercent" doc = VNum q) /\
  (forall x, get "discountPercent" o = VStr x ->
             exists q, numberCoerce E x = Numeric q /\
                       get "discountPercent" doc = VNum q) /\
  user req = Some (js_String E (get "createdBy" doc)) /\
  get "_id" doc = VObjectId (newId E st) /\
  get "createdAt" doc = VDate (now E st).
Proof.
  intros Hb H.
  destruct (createPerk_201_doc _ _ _ _ H) as [id [Hu [He Hdoc]]].
  rewrite Hb in He, Hdoc.
  destruct (validate_ok E perkSchema o createPrefs perkSchema_NoDup He)
    as [value' [Hr Hf]].
  rewrite Hr in Hdoc. cbn [own_props] in Hdoc.
  assert (Hget : forall k, k <> "createdAt" -> k <> "_id" -> k <> "createdBy" ->
                           get k doc = get k value').
  { intros k H1 H2 H3. now rewrite Hdoc, !get_set_ne. }
  assert (Hkept : forall c, In c (children perkSchema) ->
                            fst c <> "discountPercent" ->
                            (fst c = "category" ->
                             get "category" o <> VUndefined) ->
                            get (fst c) value' = get (fst c) o).
  { intros c Hin Hd Hc. destruct (Hf c Hin) as [Hce Hcv].
    rewrite Hcv. now apply field_kept. }
  destruct (Hf _ perkSchema_category) as [Hce Hcv].
  destruct (Hf _ perkSchema_discount) as [Hde Hdv].
  unfold child_errors, child_result in *. cbn [fst snd] in *.
  repeat split.
  - rewrite Hget by discriminate.
    apply (Hkept ("title", titleSchema)); simpl; auto; discriminate.
  - rewrite Hget by discriminate.
    apply (Hkept ("description", textSchema)); simpl; auto; discriminate.
  - rewrite Hget by discriminate.
    apply (Hkept ("merchant", textSchema)); simpl; auto 10; discriminate.
  - rewrite Hget by discriminate.
    destruct (is_undefined (get "category" o)) eqn:Hun.
    + rewrite Hcv. destruct (get "category" o); try discriminate. reflexivity.
    + apply (Hkept ("category", categorySchema)); simpl; auto; try discriminate.
      intros _ Hc. rewrite Hc in Hun. discriminate.
  - intros Hd. rewrite Hget by discriminate. rewrite Hdv, Hd. reflexivity.
  - intros q Hd. rewrite Hget by discriminate. rewrite Hdv, Hd.
    rewrite Hd in Hde. now apply (discount_coerced_range E createPrefs _ q).
  - intros x Hd. rewrite Hget by discriminate. rewrite Hdv, Hd.
    rewrite Hd in Hde. revert Hde. unfold validate_schema.
    cbn [coerce discountSchema s_type Joi.default Joi.max Joi.min Joi.number
         convert createPrefs defaults].
    destruct (numberCoerce E x) as [|q|q]; try discriminate.
    intros Hde. exists q. split; auto.
    now apply (discount_coerced_range E createPrefs _ q).
  - rewrite Hdoc, !get_set_ne, get_set_eq by discriminate. exact Hu.
  - rewrite Hdoc, get_set_ne, get_set_eq by discriminate. reflexivity.
  - rewrite Hdoc, get_set_eq. reflexivity.
Qed.

End WriteFacts.

(* ================================================================== *)
(** * The list of the caller, and what the handlers write *)
(* ================================================================== *)

Section OwnerFacts.

Variable E : Env.

Lemma Perk_find_equals st field s :
  Perk_find E st [Equals field s] =
  filter (fun d => match get field d with
                   | VStr x => String.eqb x s
                   | _ => false
                   end) (perks st).
Proof.
  unfold Perk_find. apply filter_ext. intros d. simpl.
  destruct (get field d); auto using andb_true_r.
Qed.

Lemma In_sorted_equals st field s d :
  In d (sort_createdAt_desc (Perk_find E st [Equals field s])) <->
  In d (perks st) /\ get field d = VStr s.
Proof.
  unfold sort_createdAt_desc. rewrite Perk_find_equals. split.
  - intros Hin. apply (Permutation_in d (sort_desc_perm _)) in Hin.
    apply filter_In in Hin. destruct Hin as [Hin Ht]. split; auto.
    destruct (get field d); try discriminate.
    apply String.eqb_eq in Ht. now subst.
  - intros [Hin Ht].
    apply (Permutation_in d (Permutation_sym (sort_desc_perm _))).
    apply filter_In. split; auto. rewrite Ht. apply String.eqb_refl.
Qed.


(** X11. A perk that [createPerk] has just stored (201) for a caller with
    a non-empty id is in the list that [getAllPerks] returns to that caller
    on the new store. *)
Theorem created_perk_is_listed st req doc st' list_req :
  createPerk E st req = (Respond 201 (OnePerk doc), st') ->
  user list_req = user req ->
  user req <> Some "" ->
  exists found,
    getAllPerks E st' list_req = (Respond 200 (ManyPerks found), st') /\
    In doc found.
Proof.
  intros H Hu Hne.
  destruct (createPerk_201_inv E _ _ _ _ H)
    as [id [doc0 [Hid [_ [_ [Hcb [Hdoc Hst]]]]]]].
  unfold getAllPerks. rewrite Hu, Hid.
  destruct id as [|c id']; [congruence|].
  set (id := String c id') in *.
  cbn [truthy String.eqb negb try_catch js_String].
  eexists. split; [reflexivity|].
  apply In_sorted_equals. split.
  - rewrite Hst. cbn [perks]. apply in_or_app. right. now left.
  - now rewrite Hdoc, !get_set_ne by discriminate.
Qed.

(** X4. The four read handlers never change the store. [createPerk],
    [updatePerk] and [deletePerk] never change the users, and change the
    perks only together with their success answer (201: the new document is
    appended; 200: the document replaces the perk with that identifier; 200:
    that perk is removed): every other outcome, be it 400, 404, 409 or an
    error for the error handler, leaves the store as it is. *)
Theorem store_written_on_success_only st req :
  snd (filterPerks E st req) = st /\
  snd (getAllPerks E st req) = st /\
  snd (getAllPerksPublic E st req) = st /\
  snd (getPerk E st req) = st /\
  (forall out st',
      createPerk E st req = (out, st') ->
      users st' = users st /\
      (st' = st \/
       exists doc, out = Respond 201 (OnePerk doc) /\
                   perks st' = perks st ++ [doc])) /\
  (forall out st',
      updatePerk E st req = (out, st') ->
      users st' = users st /\
      (st' = st \/
       exists doc, out = Respond 200 (OnePerk doc) /\
                   perks st' =
                   replace_first (has_id (castId E (params_id req))) doc
                                 (perks st))) /\
  (forall out st',
      deletePerk E st req = (out, st') ->
      users st' = users st /\
      (st' = st \/
       out = Respond 200 Acknowledge /\
       perks st' = remove_first (has_id (castId E (params_id req))) (perks st))).
Proof.
  split; [|split; [|split; [|split; [|split; [|split]]]]].
  - unfold filterPerks. destruct (query_title req) as [t|]; [|reflexivity].
    cbn [try_catch]. destruct (truthy (VStr t)); reflexivity.
  - unfold getAllPerks. destruct (user req) as [id|]; [|reflexivity].
    cbn [try_catch]. destruct (negb (truthy (VStr id))); reflexivity.
  - reflexivity.
  - unfold getPerk. destruct (Perk_findById E st (params_id req)) as [[p|]|e];
      reflexivity.
  - intros out st'. unfold createPerk.
    destruct (r_errors (validate E perkSchema (body req) createPrefs)).
    2: { cbn [try_catch]. intros H. inversion H. auto. }
    destruct (user req) as [id|]; cbn [bind try_catch].
    2: { intros H. inversion H. auto. }
    unfold Perk_create. destruct (insertCheck E st _); cbn [bind try_catch fst snd].
    + destruct (is_duplicate_key e); intros H; inversion H; auto.
    + intros H. inversion H. split; [reflexivity|]. right. eauto.
  - intros out st'. unfold updatePerk, Perk_findById, Perk_findByIdAndUpdate.
    destruct (isValid E (params_id req)); cbn [bind try_catch].
    2: { intros H. inversion H. auto. }
    destruct (find (has_id (castId E (params_id req))) (perks st)) as [x|].
    2: { intros H. inversion H. auto. }
    destruct (r_errors _).
    2: { intros H. inversion H. auto. }
    destruct (updateCheck E st (params_id req) _); cbn [bind try_catch fst snd].
    + intros H. inversion H. auto.
    + intros H. inversion H. split; [reflexivity|]. right. eauto.
  - intros out st'. unfold deletePerk, Perk_findByIdAndDelete.
    destruct (isValid E (params_id req)); cbn [bind try_catch].
    2: { intros H. inversion H. auto. }
    destruct (find (has_id (castId E (params_id req))) (perks st)) as [x|];
      cbn [fst snd]; intros H; inversion H; auto.
Qed.

End OwnerFacts.

(* ================================================================== *)
(** * Sets and maps of the resolution *)
(* ================================================================== *)

Section ResolutionFacts.

Variable E : Env.

(** ** Sets and maps *)

Lemma set_add_In x y l : In x (set_add y l) <-> x = y \/ In x l.
Proof.
  unfold set_add. destruct (existsb (String.eqb y) l) eqn:He.
  - split; auto. intros [->|H]; auto.
    apply existsb_exists in He. destruct He as [z [Hz Heq]].
    apply String.eqb_eq in Heq. now subst.
  - rewrite in_app_iff. simpl. intuition.
Qed.

Lemma map_set_In k u m k' u' :
  In (k', u') (map_set k u m) -> (k' = k /\ u' = u) \/ In (k', u') m.
Proof.
  induction m as [|[k2 u2] rest IH]; simpl.
  - intros [H|[]]. inversion H. auto.
  - destruct (String.eqb_spec k k2) as [->|Hne]; simpl.
    + intros [H|H]; [inversion H|]; auto.
    + intros [H|H]; auto. destruct (IH H); auto.
Qed.

Lemma map_get_In k m u : map_get k m = Some u -> In (k, u) m.
Proof.
  induction m as [|[k2 u2] rest IH]; simpl; [discriminate|].
  destruct (String.eqb_spec k k2) as [->|Hne].
  - intros H. injection H as ->. auto.
  - auto.
Qed.

Lemma Map_of_entries entries k u :
  map_get k (Map_of entries) = Some u -> In (k, u) entries.
Proof.
  intros H. apply map_get_In in H. revert H. unfold Map_of.
  assert (Hf : forall m,
             In (k, u) (fold_left (fun m kv => map_set (fst kv) (snd kv) m)
                                  entries m) ->
             In (k, u) entries \/ In (k, u) m).
  { induction entries as [|[k' u'] rest IH]; intros m; simpl; auto.
    intros H. destruct (IH _ H) as [Hin|Hin]; auto.
    destruct (map_set_In _ _ _ _ _ Hin) as [[-> ->]|Hm]; auto. }
  intros H. destruct (Hf [] H); [assumption|contradiction].
Qed.

Lemma map_has_set k k' u m :
  map_has k (map_set k' u m) = orb (String.eqb k k') (map_has k m).
Proof.
  unfold map_has. rewrite map_get_set. now destruct (String.eqb k k').
Qed.

Lemma Map_of_has entries k :
  In k (map fst entries) -> map_has k (Map_of entries) = true.
Proof.
  unfold Map_of.
  assert (Hf : forall m,
             In k (map fst entries) \/ map_has k m = true ->
             map_has k (fold_left (fun m kv => map_set (fst kv) (snd kv) m)
                                  entries m) = true).
  { induction entries as [|[k' u'] rest IH]; intros m; simpl.
    - intros [[]|H]; auto.
    - intros H. apply IH. rewrite map_has_set.
      destruct H as [[->|H]|H]; auto.
      + right. now rewrite String.eqb_refl.
      + right. rewrite H. apply orb_true_r. }
  intros H. apply Hf. auto.
Qed.

(** ** The keys collected by the first loop *)

Lemma collect_keys_In perks p :
  In p perks ->
  truthy (get "createdBy" p) = true ->
  if isValid E (creator_key E p)
  then In (creator_key E p) (fst (collect_keys E perks))
  else In (creator_key E p) (snd (collect_keys E perks)).
Proof.
  unfold collect_keys, creator_key.
  set (step := fun (sets : list string * list string) (q : obj) =>
                 if negb (truthy (get "createdBy" q)) then sets
                 else if isValid E (js_String E (get "createdBy" q))
                      then (set_add (js_String E (get "createdBy" q)) (fst sets),
                            snd sets)
                      else (fst sets,
                            set_add (js_String E (get "createdBy" q)) (snd sets))).
  assert (Hmono : forall l acc x,
             (In x (fst acc) -> In x (fst (fold_left step l acc))) /\
             (In x (snd acc) -> In x (snd (fold_left step l acc)))).
  { induction l as [|q rest IH]; intros acc x; simpl; auto.
    destruct (IH (step acc q) x) as [H1 H2].
    split; intros H; [apply H1|apply H2]; unfold step;
      destruct (negb (truthy (get "createdBy" q))); auto;
      destruct (isValid E (js_String E (get "createdBy" q))); simpl; auto;
      apply set_add_In; auto. }
  intros Hin Ht.
  assert (Hstep : forall acc,
             if isValid E (js_String E (get "createdBy" p))
             then In (js_String E (get "createdBy" p)) (fst (step acc p))
             else In (js_String E (get "createdBy" p)) (snd (step acc p))).
  { intros acc. unfold step. rewrite Ht. simpl.
    destruct (isValid E (js_String E (get "createdBy" p))); simpl;
      apply set_add_In; auto. }
  generalize (@nil string, @nil string).
  induction perks as [|q rest IH]; [contradiction|].
  intros acc. simpl. destruct Hin as [->|Hin]; [|now apply IH].
  specialize (Hstep acc).
  destruct (Hmono rest (step acc p) (js_String E (get "createdBy" p))) as [H1 H2].
  destruct (isValid E (js_String E (get "createdBy" p))); auto.
Qed.

End ResolutionFacts.

(* ================================================================== *)
(** * The shape of the public list *)
(* ================================================================== *)

Section PublicListFacts.

Variable E : Env.

Lemma In_present {A : Type} (l : list (option A)) (x : A) :
  In (Some x) l -> In x (present l).
Proof.
  induction l as [|[y|] rest IH]; simpl; auto.
  - intros [H|H]; [injection H as ->|]; auto.
  - intros [H|H]; [discriminate|auto].
Qed.

(** The two maps of the resolution: what they hold, and what they are sure
    to hold. *)
Lemma resolve_creators_maps st perks :
  exists m1 m2,
    resolve_creators E st perks = map (attach E m1 m2) perks /\
    (forall k u, map_get k m1 = Some u -> In u (users st) /\ user_id u = k) /\
    (forall k u, map_get k m2 = Some u -> In u (users st) /\ key_of_user u = k) /\
    (forall s u, In s (fst (collect_keys E perks)) -> In u (users st) ->
                 castId E s = user_id u -> map_has (user_id u) m1 = true) /\
    (forall s u, In s (snd (collect_keys E perks)) -> lookup_key st s = Some u ->
                 map_has (key_of_user u) m2 = true).
Proof.
  unfold resolve_creators.
  destruct (collect_keys E perks) as [idSet stringKeys]. cbn [fst snd].
  eexists. eexists. split; [reflexivity|]. repeat split.
  - apply Map_of_entries in H. apply in_map_iff in H.
    destruct H as [u' [Heq Hin]]. inversion Heq; subst.
    destruct (Nat.ltb 0 (length idSet)); [|contradiction].
    unfold User_find_in in Hin. apply filter_In in Hin. tauto.
  - apply Map_of_entries in H. apply in_map_iff in H.
    destruct H as [u' [Heq Hin]]. now inversion Heq.
  - apply Map_of_entries in H. apply in_map_iff in H.
    destruct H as [u' [Heq Hin]]. inversion Heq; subst.
    destruct (Nat.ltb 0 (length stringKeys)); [|contradiction].
    apply present_In in Hin. apply in_map_iff in Hin.
    destruct Hin as [key [Hk _]]. now apply lookup_key_In in Hk.
  - apply Map_of_entries in H. apply in_map_iff in H.
    destruct H as [u' [Heq Hin]]. now inversion Heq.
  - intros s u Hs Hu Hc. apply Map_of_has. rewrite map_map. cbn [fst].
    apply in_map. destruct idSet as [|x l]; [contradiction|].
    cbn [length Nat.ltb Nat.leb]. unfold User_find_in. apply filter_In.
    split; auto. apply existsb_exists. exists s. split; auto.
    now apply String.eqb_eq.
  - intros s u Hs Hl. apply Map_of_has. rewrite map_map. cbn [fst].
    apply in_map. destruct stringKeys as [|x l]; [contradiction|].
    cbn [length Nat.ltb Nat.leb]. apply In_present. rewrite <- Hl.
    now apply in_map.
Qed.

Lemma attach_resolved st m1 m2 p0 :
  (forall k u, map_get k m1 = Some u -> In u (users st) /\ user_id u = k) ->
  (forall k u, map_get k m2 = Some u -> In u (users st) /\ key_of_user u = k) ->
  resolved_from E st p0 (attach E m1 m2 p0).
Proof.
  intros H1 H2. unfold resolved_from, attach, creator_key.
  destruct (truthy (get "createdBy" p0)); simpl; [|reflexivity].
  set (cb := js_String E (get "createdBy" p0)).
  unfold map_has, map_get_value.
  destruct (map_get cb m1) as [u|] eqn:Hu1.
  { eexists. split; [reflexivity|]. right. exists u.
    destruct (H1 _ _ Hu1). auto. }
  destruct (map_get cb m2) as [u|] eqn:Hu2; simpl.
  { eexists. split; [reflexivity|]. right. exists u.
    destruct (H2 _ _ Hu2). auto. }
  destruct (map_get (toLowerCase cb) m2) as [u|] eqn:Hu3; simpl.
  { eexists. split; [reflexivity|]. right. exists u.
    destruct (H2 _ _ Hu3). auto. }
  eexists. split; [reflexivity|]. now left.
Qed.

Lemma truthy_trim s :
  andb (truthy (VStr s)) (truthy (VStr (trim s))) = negb (String.eqb (trim s) "").
Proof. destruct s; reflexivity. Qed.

Lemma resolved_from_fields st p0 p k :
  resolved_from E st p0 p -> k <> "createdBy" -> get k p = get k p0.
Proof.
  unfold resolved_from. destruct (truthy (get "createdBy" p0)).
  - intros [v [-> _]] Hk. now apply get_set_ne.
  - now intros ->.
Qed.

Lemma StronglySorted_Forall2 {A : Type} (R : A -> A -> Prop) (Q : A -> A -> Prop)
      (l l' : list A) :
  (forall a b a' b', Q a a' -> Q b b' -> R a b -> R a' b') ->
  Forall2 Q l l' -> StronglySorted R l -> StronglySorted R l'.
Proof.
  intros Hc H12. induction H12 as [|a a' l l' Ha Hl IH]; intros Hs.
  - constructor.
  - inversion Hs as [|? ? Hs' Hall]; subst. constructor; auto.
    clear IH Hs Hs'. induction Hl as [|b b' l l' Hb Hl IH]; constructor.
    + inversion Hall; subst. eauto.
    + inversion Hall; subst. auto.
Qed.

Lemma Forall2_map_r {A B : Type} (Q : A -> B -> Prop) (f : A -> B) (l : list A) :
  (forall x, In x l -> Q x (f x)) -> Forall2 Q l (map f l).
Proof.
  induction l as [|x rest IH]; simpl; constructor; auto.
Qed.

(** The shape of the public list. *)
Lemma public_list_shape st req :
  exists found m1 m2,
    getAllPerksPublic E st req =
      (Respond 200 (ManyPerks (map (attach E m1 m2) found)), st) /\
    found = sort_createdAt_desc (filter (selected E req) (perks st)) /\
    (forall k u, map_get k m1 = Some u -> In u (users st) /\ user_id u = k) /\
    (forall k u, map_get k m2 = Some u -> In u (users st) /\ key_of_user u = k) /\
    (forall s u, In s (fst (collect_keys E found)) -> In u (users st) ->
                 castId E s = user_id u -> map_has (user_id u) m1 = true) /\
    (forall s u, In s (snd (collect_keys E found)) -> lookup_key st s = Some u ->
                 map_has (key_of_user u) m2 = true).
Proof.
  unfold getAllPerksPublic. cbn [try_catch].
  match goal with
  | |- context [Perk_find E st ?q] =>
      assert (Hq : Perk_find E st q = filter (selected E req) (perks st))
  end.
  { unfold Perk_find. apply filter_ext. intros d. unfold selected.
    destruct (query_search req) as [search|];
      destruct (query_merchant req) as [merchant|];
      rewrite ?truthy_trim;
      repeat match goal with
             | |- context [String.eqb (trim ?x) ""] =>
                 destruct (String.eqb (trim x) "")
             end;
      simpl; destruct (get "title" d); destruct (get "merchant" d);
      simpl; rewrite ?andb_true_r; reflexivity. }
  rewrite Hq.
  set (found := sort_createdAt_desc (filter (selected E req) (perks st))).
  destruct (resolve_creators_maps st found) as [m1 [m2 [Hr [H1 [H2 [H3 H4]]]]]].
  exists found, m1, m2.
  split; [|split; [reflexivity|split; [exact H1|split; [exact H2|split;
    [exact H3|exact H4]]]]].
  rewrite <- Hr. destruct found; reflexivity.
Qed.

End PublicListFacts.

(* ================================================================== *)
(** * The public list *)
(* ================================================================== *)

Section PublicListTheorems.

Variable E : Env.

Lemma lower_ascii_idem c : lower_ascii (lower_ascii c) = lower_ascii c.
Proof. destruct c as [[] [] [] [] [] [] [] []]; reflexivity. Qed.

Lemma toLowerCase_idem s : toLowerCase (toLowerCase s) = toLowerCase s.
Proof.
  induction s as [|c rest IH]; simpl; auto.
  now rewrite lower_ascii_idem, IH.
Qed.

Lemma In_found st req p0 :
  In p0 (sort_createdAt_desc (filter (selected E req) (perks st))) <->
  In p0 (perks st) /\ selected E req p0 = true.
Proof.
  unfold sort_createdAt_desc. rewrite <- filter_In. split; intros H.
  - exact (Permutation_in p0 (sort_desc_perm _) H).
  - exact (Permutation_in p0 (Permutation_sym (sort_desc_perm _)) H).
Qed.

Lemma selected_fields req p p0 :
  get "title" p = get "title" p0 -> get "merchant" p = get "merchant" p0 ->
  selected E req p = selected E req p0.
Proof. unfold selected. now intros -> ->. Qed.

Lemma newer_eq_fields a b a' b' :
  get "createdAt" a' = get "createdAt" a ->
  get "createdAt" b' = get "createdAt" b ->
  newer_eq a b = true -> newer_eq a' b' = true.
Proof. unfold newer_eq, createdAt. now intros -> ->. Qed.

(** X12. [getAllPerksPublic] answers 200 with a list that comes, perk by
    perk, from the stored perks that the search and merchant filters select
    (a blank or absent filter selects everything), newest first: each
    listed perk is the stored one with nothing but [createdBy] replaced (by
    null or by the record of a user that matches the stored key), so the
    list itself is sorted and every perk of it satisfies the filters. *)
Theorem public_list_selected_and_resolved st req :
  exists found resolved,
    getAllPerksPublic E st req = (Respond 200 (ManyPerks resolved), st) /\
    Permutation found (filter (selected E req) (perks st)) /\
    Forall2 (resolved_from E st) found resolved /\
    StronglySorted (fun a b => newer_eq a b = true) found /\
    StronglySorted (fun a b => newer_eq a b = true) resolved /\
    (forall p, In p resolved -> selected E req p = true).
Proof.
  destruct (public_list_shape E st req)
    as [found [m1 [m2 [Hr [Hf [H1 [H2 _]]]]]]].
  exists found, (map (attach E m1 m2) found).
  assert (Hres : Forall2 (resolved_from E st) found (map (attach E m1 m2) found)).
  { apply Forall2_map_r. intros p0 _. now apply attach_resolved. }
  assert (Hsorted : StronglySorted (fun a b => newer_eq a b = true) found).
  { rewrite Hf. apply sort_desc_sorted. }
  split; [exact Hr|]. split; [rewrite Hf; apply sort_desc_perm|].
  split; [exact Hres|]. split; [exact Hsorted|]. split.
  - apply (StronglySorted_Forall2 _ (resolved_from E st) found); auto.
    intros a b a' b' Ha Hb.
    apply newer_eq_fields;
      eapply resolved_from_fields; eauto; discriminate.
  - intros p Hin. apply in_map_iff in Hin. destruct Hin as [p0 [<- Hin]].
    rewrite Hf in Hin. apply In_found in Hin. destruct Hin as [_ Hsel].
    rewrite <- Hsel. apply selected_fields;
      eapply resolved_from_fields;
      try (apply attach_resolved; eassumption); discriminate.
Qed.

(** X13. A selected perk whose [createdBy] is the identifier of a user of
    the store, in the canonical form that casting gives back, is listed
    with the record of a user with that identifier as its creator. *)
Theorem creator_resolved_by_id st req p0 u :
  In p0 (perks st) ->
  selected E req p0 = true ->
  truthy (get "createdBy" p0) = true ->
  isValid E (creator_key E p0) = true ->
  castId E (creator_key E p0) = creator_key E p0 ->
  In u (users st) ->
  user_id u = creator_key E p0 ->
  exists u' resolved,
    getAllPerksPublic E st req = (Respond 200 (ManyPerks resolved), st) /\
    In u' (users st) /\ user_id u' = creator_key E p0 /\
    In (set "createdBy" (user_value u') p0) resolved.
Proof.
  intros Hin Hsel Ht Hv Hc Hu Hid.
  destruct (public_list_shape E st req)
    as [found [m1 [m2 [Hr [Hf [H1 [H2 [H3 _]]]]]]]].
  assert (Hfound : In p0 found) by (rewrite Hf; apply In_found; auto).
  pose proof (collect_keys_In E found p0 Hfound Ht) as Hk. rewrite Hv in Hk.
  assert (Hhas : map_has (creator_key E p0) m1 = true).
  { rewrite <- Hid. apply (H3 (creator_key E p0)); auto. congruence. }
  unfold map_has in Hhas.
  destruct (map_get (creator_key E p0) m1) as [u'|] eqn:Hg; [|discriminate].
  destruct (H1 _ _ Hg) as [Hu' Hid'].
  exists u', (map (attach E m1 m2) found).
  split; [exact Hr|]. split; [exact Hu'|]. split; [exact Hid'|].
  apply in_map_iff. exists p0. split; auto.
  unfold attach. rewrite Ht. cbn [negb].
  fold (creator_key E p0). unfold map_has, map_get_value. now rewrite Hg.
Qed.

(** X14. A selected perk whose [createdBy] is not an identifier and holds
    an [@], while some user has its lower-cased form as email, is not
    listed with a null creator: it carries the record of a user whose
    identifier or lookup key is the stored key or its lower-cased form. *)
Theorem creator_resolved_by_email st req p0 u :
  In p0 (perks st) ->
  selected E req p0 = true ->
  truthy (get "createdBy" p0) = true ->
  isValid E (creator_key E p0) = false ->
  includes_char "@" (creator_key E p0) = true ->
  In u (users st) ->
  user_email u = Some (toLowerCase (creator_key E p0)) ->
  exists u' resolved,
    getAllPerksPublic E st req = (Respond 200 (ManyPerks resolved), st) /\
    In u' (users st) /\
    (user_id u' = creator_key E p0 \/
     key_of_user u' = creator_key E p0 \/
     key_of_user u' = toLowerCase (creator_key E p0)) /\
    In (set "createdBy" (user_value u') p0) resolved.
Proof.
  intros Hin Hsel Ht Hv Hat Hu Hemail.
  destruct (public_list_shape E st req)
    as [found [m1 [m2 [Hr [Hf [H1 [H2 [_ H4]]]]]]]].
  assert (Hfound : In p0 found) by (rewrite Hf; apply In_found; auto).
  pose proof (collect_keys_In E found p0 Hfound Ht) as Hk. rewrite Hv in Hk.
  set (cb := creator_key E p0) in *.
  destruct (lookup_key st cb) as [u1|] eqn:Hl.
  2: { exfalso. unfold lookup_key in Hl. rewrite Hat in Hl.
       unfold User_findOne_email in Hl.
       pose proof (find_none _ _ Hl u Hu) as Hn. cbv beta in Hn.
       rewrite Hemail, String.eqb_refl in Hn. discriminate. }
  assert (Hkey : key_of_user u1 = toLowerCase cb).
  { unfold lookup_key in Hl. rewrite Hat in Hl.
    unfold User_findOne_email in Hl. apply find_some in Hl.
    destruct Hl as [_ He]. unfold key_of_user.
    destruct (user_email u1) as [e|]; [|discriminate].
    apply String.eqb_eq in He. subst e. rewrite toLowerCase_idem.
    destruct cb; [discriminate|reflexivity]. }
  pose proof (H4 cb u1 Hk Hl) as Hhas. rewrite Hkey in Hhas.
  unfold map_has in Hhas.
  assert (Hatt : exists u',
             attach E m1 m2 p0 = set "createdBy" (user_value u') p0 /\
             In u' (users st) /\
             (user_id u' = cb \/ key_of_user u' = cb \/
              key_of_user u' = toLowerCase cb)).
  { unfold attach. rewrite Ht. cbn [negb].
    fold (creator_key E p0). fold cb. unfold map_has, map_get_value.
    destruct (map_get cb m1) as [x|] eqn:G1.
    { exists x. destruct (H1 _ _ G1). auto. }
    destruct (map_get cb m2) as [x|] eqn:G2; cbn [orb].
    { exists x. destruct (H2 _ _ G2). auto. }
    destruct (map_get (toLowerCase cb) m2) as [x|] eqn:G3; [|discriminate].
    exists x. destruct (H2 _ _ G3). auto. }
  destruct Hatt as [u' [Ha [Hu' Hrel]]].
  exists u', (map (attach E m1 m2) found).
  split; [exact Hr|]. split; [exact Hu'|]. split; [exact Hrel|].
  apply in_map_iff. exists p0. split; auto.
Qed.

(** X16. A selected perk whose [createdBy] is not an identifier, holds no
    [@] and is the name of a user, while no user of that name has an email,
    is listed with the record of a user whose identifier or lookup key is
    the stored key. *)
Theorem creator_resolved_by_name st req p0 u :
  In p0 (perks st) ->
  selected E req p0 = true ->
  truthy (get "createdBy" p0) = true ->
  isValid E (creator_key E p0) = false ->
  includes_char "@" (creator_key E p0) = false ->
  In u (users st) ->
  user_name u = creator_key E p0 ->
  (forall x, In x (users st) -> user_name x = creator_key E p0 ->
             user_email x = None) ->
  exists u' resolved,
    getAllPerksPublic E st req = (Respond 200 (ManyPerks resolved), st) /\
    In u' (users st) /\
    (user_id u' = creator_key E p0 \/ key_of_user u' = creator_key E p0) /\
    In (set "createdBy" (user_value u') p0) resolved.
Proof.
  intros Hin Hsel Ht Hv Hat Hu Hname Hnomail.
  destruct (public_list_shape E st req)
    as [found [m1 [m2 [Hr [Hf [H1 [H2 [_ H4]]]]]]]].
  assert (Hfound : In p0 found) by (rewrite Hf; apply In_found; auto).
  pose proof (collect_keys_In E found p0 Hfound Ht) as Hk. rewrite Hv in Hk.
  set (cb := creator_key E p0) in *.
  destruct (lookup_key st cb) as [u1|] eqn:Hl.
  2: { exfalso. unfold lookup_key in Hl. rewrite Hat in Hl.
       unfold User_findOne_name in Hl.
       pose proof (find_none _ _ Hl u Hu) as Hn. cbv beta in Hn.
       rewrite Hname, String.eqb_refl in Hn. discriminate. }
  assert (Hkey : key_of_user u1 = cb).
  { unfold lookup_key in Hl. rewrite Hat in Hl.
    unfold User_findOne_name in Hl. apply find_some in Hl.
    destruct Hl as [Hin1 He]. apply String.eqb_eq in He.
    unfold key_of_user. now rewrite (Hnomail u1 Hin1 He). }
  pose proof (H4 cb u1 Hk Hl) as Hhas. rewrite Hkey in Hhas.
  unfold map_has in Hhas.
  assert (Hatt : exists u',
             attach E m1 m2 p0 = set "createdBy" (user_value u') p0 /\
             In u' (users st) /\ (user_id u' = cb \/ key_of_user u' = cb)).
  { unfold attach. rewrite Ht. cbn [negb].
    fold (creator_key E p0). fold cb. unfold map_has, map_get_value.
    destruct (map_get cb m1) as [x|] eqn:G1.
    { exists x. destruct (H1 _ _ G1). auto. }
    destruct (map_get cb m2) as [x|] eqn:G2; [|discriminate]. cbn [orb].
    exists x. destruct (H2 _ _ G2). auto. }
  destruct Hatt as [u' [Ha [Hu' Hrel]]].
  exists u', (map (attach E m1 m2) found).
  split; [exact Hr|]. split; [exact Hu'|]. split; [exact Hrel|].
  apply in_map_iff. exists p0. split; auto.
Qed.

End PublicListTheorems.

(* ================================================================== *)
(** * The handlers on the sample data *)
(* ================================================================== *)

(** C1, as the claim states it, fails on a perk whose stored creator is the
    empty string: the resolution skips it, and the answer carries the empty
    string, which is neither a user record nor null. *)
Lemma blank_creator_counterexample :
  getAllPerksPublic refEnv blankStore listRequest =
    (Respond 200 (ManyPerks [blankPerk]), blankStore) /\
  get "createdBy" blankPerk = VStr "" /\
  ~ (user_record blankStore (get "createdBy" blankPerk) \/
     get "createdBy" blankPerk = VNull).
Proof.
  split; [reflexivity|]. split; [reflexivity|].
  intros [[u [_ Hu]]|H]; discriminate.
Qed.

(** C1, on the sample store: the unresolved creator of the listed perk is
    null. *)
Lemma getAllPerksPublic_creators_witness :
  exists found,
    getAllPerksPublic refEnv sampleStore listRequest =
      (Respond 200 (ManyPerks found), sampleStore) /\
    forall p, In p found ->
      (user_record sampleStore (get "createdBy" p) \/
       get "createdBy" p = VNull \/
       (truthy (get "createdBy" p) = false /\ In p (perks sampleStore))) /\
      (forall s, get "createdBy" p = VStr s -> s = "").
Proof. exact (getAllPerksPublic_creators refEnv sampleStore listRequest). Defined.

(** C2. A perk created by the legacy name ["Alice"], which is not an
    identifier and holds no [@], while the user Alice is in the store: the
    lookup by name finds her, the map is keyed by her email, and the perk
    is listed with a null creator. *)
Theorem legacy_name_not_resolved :
  isValid refEnv "Alice" = false /\
  includes_char "@" "Alice" = false /\
  User_findOne_name sampleStore "Alice" = Some alice /\
  key_of_user alice = "alice@example.com" /\
  getAllPerksPublic refEnv sampleStore listRequest =
    (Respond 200 (ManyPerks [set "createdBy" VNull gymPerk]), sampleStore).
Proof. repeat split; reflexivity. Qed.

(** C3, as the claim states it, fails on the payload
    [{ title: "ab", discountPercent: 150 }]: the validation does not pass
    with a discount brought into the range, it fails. *)
Lemma discount_clamped_counterexample :
  ~ (exists q,
        r_errors (validate refEnv perkSchema (VObject tooHigh) createPrefs) = [] /\
        get "discountPercent"
            (own_props (r_value (validate refEnv perkSchema (VObject tooHigh)
                                          createPrefs))) = VNum q /\
        0 <= q /\ q <= 100).
Proof. intros [q [He _]]. vm_compute in He. discriminate. Qed.

Lemma discount_rejected_not_clamped_witness :
  get "discountPercent" tooHigh = VNum 150 /\
  (150 < 0 \/ 100 < 150) /\
  r_errors (validate refEnv perkSchema (VObject tooHigh) createPrefs) <> [] /\
  get "discountPercent"
      (own_props (r_value (validate refEnv perkSchema (VObject tooHigh)
                                    updatePrefs))) = VNum 150.
Proof.
  assert (Hq : 150 < 0 \/ 100 < 150) by (right; reflexivity).
  split; [reflexivity|]. split; [exact Hq|]. split.
  - exact (proj1 (discount_rejected_not_clamped refEnv) createPrefs tooHigh 150
                 eq_refl Hq).
  - exact (proj2 (proj1 (proj2 (proj2 (discount_rejected_not_clamped refEnv)))
                        tooHigh 150 eq_refl Hq)).
Defined.

(** C4. An update whose payload sets [createdBy] is answered with 200: the
    field is an unknown key of the schema (which forbids [ccreatedBy]), the
    update mode strips unknown keys, and the perk stays as it is. *)
Theorem update_owner_silently_dropped :
  updatePerk refEnv sampleStore
             (idRequest gymId (VObject [("createdBy", VStr "evil")])) =
    (Respond 200 (OnePerk gymPerk), sampleStore) /\
  r_errors (validate refEnv perkSchema
                     (VObject (spread gymPerk [("createdBy", VStr "evil")]))
                     updatePrefs) = [].
Proof. split; reflexivity. Qed.

(** C5, on the sample store: a perk created from [{ title: "Spa" }]. *)
Lemma createPerk_stored_witness :
  exists doc st',
    createPerk refEnv sampleStore (createRequest (VObject [("title", VStr "Spa")]))
      = (Respond 201 (OnePerk doc), st') /\
    In doc (perks st') /\
    In (get "category" doc) categories /\
    (exists q, get "discountPercent" doc = VNum q /\ 0 <= q /\ q <= 100) /\
    get "createdBy" doc = VStr (user_id alice).
Proof.
  eexists. eexists.
  apply (createPerk_stored refEnv sampleStore
           (createRequest (VObject [("title", VStr "Spa")])) (user_id alice)).
  - discriminate.
  - reflexivity.
  - reflexivity.
  - reflexivity.
Defined.

(** C6, as the claim states it, fails on a perk stored without a category:
    the update [{ discountPercent: 50 }] passes validation and is answered
    with 200, and the updated perk has the category ["other"], a field that
    the payload does not carry and that the stored perk did not have. *)
Lemma update_fills_category_counterexample :
  r_errors (validate refEnv perkSchema (VObject (spread cinemaPerk halfPrice))
                     updatePrefs) = [] /\
  updatePerk refEnv cinemaStore (idRequest cinemaId (VObject halfPrice)) =
    (Respond 200 (OnePerk cinemaUpdated), mkStore [cinemaUpdated] [alice]) /\
  get "category" cinemaPerk = VUndefined /\
  get "category" cinemaUpdated = VStr "other" /\
  ~ (forall k, k <> "discountPercent" ->
               get k cinemaUpdated = get k cinemaPerk).
Proof.
  split; [reflexivity|]. split; [reflexivity|]. split; [reflexivity|].
  split; [reflexivity|].
  intros H. specialize (H "category"). discriminate H. discriminate.
Qed.

(** C6, on the sample store: the update [{ discountPercent: 50 }] of a perk
    that has a category. *)
Lemma updatePerk_frame_witness :
  exists doc,
    fst (updatePerk refEnv sampleStore (idRequest gymId (VObject halfPrice)))
      = Respond 200 (OnePerk doc) /\
    get "discountPercent" doc = VNum 50 /\
    forall k, k <> "discountPercent" -> get k doc = get k gymPerk.
Proof.
  destruct (updatePerk_frame refEnv sampleStore
              (idRequest gymId (VObject halfPrice)) gymPerk
              eq_refl eq_refl eq_refl eq_refl)
    as [doc [Hu [_ [_ [_ [_ Hq]]]]]].
  exists doc. rewrite Hu. split; [reflexivity|].
  destruct (Hq 50 eq_refl) as [Hd Hrest]. split; [exact Hd|].
  intros k Hk. destruct (Hrest k Hk) as [H|[Hc [Hun _]]]; [exact H|].
  subst k. discriminate Hun.
Defined.


(** C8, as the claim states it, fails on the request [?title=]: the
    parameter is present, and the answer is not the list of the perks with
    that title. *)
Lemma filterPerks_empty_title_counterexample :
  query_title (titleRequest "") = Some "" /\
  ~ (exists found,
        fst (filterPerks refEnv sampleStore (titleRequest "")) =
          Respond 200 (PerkArray found)).
Proof. split; [reflexivity|]. intros [found H]. discriminate. Qed.

Lemma filterPerks_exact_title_witness :
  exists found,
    filterPerks refEnv sampleStore (titleRequest "Gym") =
      (Respond 200 (PerkArray found), sampleStore) /\
    (forall d, In d found <-> In d (perks sampleStore) /\ get "title" d = VStr "Gym").
Proof.
  destruct (filterPerks_exact_title refEnv sampleStore (titleRequest "Gym"))
    as [found [H [_ [Hin _]]]].
  exists found. split; assumption.
Defined.


(** C10, on the sample store: the id ["42"]. *)
Lemma invalid_id_cast_error_witness :
  isValid refEnv "42" = false /\
  getPerk refEnv sampleStore (idRequest "42" VUndefined)
    = (Next CastError, sampleStore) /\
  updatePerk refEnv sampleStore (idRequest "42" VUndefined)
    = (Next CastError, sampleStore) /\
  deletePerk refEnv sampleStore (idRequest "42" VUndefined)
    = (Next CastError, sampleStore).
Proof.
  split; [reflexivity|].
  apply (invalid_id_cast_error refEnv sampleStore (idRequest "42" VUndefined)).
  reflexivity.
Defined.

(** X1, on the payload with a discount of 150. *)
Lemma perkSchema_accepts_exactly_witness :
  body (createRequest (VObject tooHigh)) = VObject tooHigh /\
  ~ acceptable refEnv createPrefs tooHigh /\
  exists message,
    createPerk refEnv sampleStore (createRequest (VObject tooHigh)) =
      (Respond 400 (Message message), sampleStore).
Proof.
  pose proof (perkSchema_accepts_exactly refEnv createPrefs tooHigh sampleStore
                (createRequest (VObject tooHigh))) as [Hiff Hreq].
  assert (Hn : ~ acceptable refEnv createPrefs tooHigh).
  { intros Ha. apply Hiff in Ha. vm_compute in Ha. discriminate. }
  split; [reflexivity|]. split; [exact Hn|].
  apply (proj1 (Hreq eq_refl)). exact Hn.
Defined.

(** X2, on the payload without a title. *)
Lemma createPerk_reports_title_first_witness :
  body (createRequest (VObject untitled)) = VObject untitled /\
  ~ title_ok (get "title" untitled) /\
  createPerk refEnv sampleStore (createRequest (VObject untitled)) =
    (Respond 400 (Message (label ["title"] ++ " is required")%string),
     sampleStore).
Proof.
  assert (Hn : ~ title_ok (get "title" untitled)).
  { intros [x [H _]]. discriminate. }
  split; [reflexivity|]. split; [exact Hn|].
  destruct (createPerk_reports_title_first refEnv sampleStore
              (createRequest (VObject untitled)) untitled eq_refl Hn)
    as [d [_ [_ [Hc Hm]]]].
  rewrite Hc, (Hm eq_refl). reflexivity.
Defined.

(** X3, on the payload that names the owner. *)
Lemma createPerk_rejects_owner_witness :
  body (createRequest (VObject ownerPayload)) = VObject ownerPayload /\
  In "createdBy" (keys ownerPayload) /\
  exists message,
    createPerk refEnv sampleStore (createRequest (VObject ownerPayload)) =
      (Respond 400 (Message message), sampleStore).
Proof.
  assert (Hin : In "createdBy" (keys ownerPayload)) by (simpl; auto).
  split; [reflexivity|]. split; [exact Hin|].
  exact (createPerk_rejects_owner refEnv sampleStore
           (createRequest (VObject ownerPayload)) ownerPayload eq_refl Hin).
Defined.

(** X4, on the sample store: a refused creation and a refused update. *)
Lemma store_written_on_success_only_witness :
  snd (createPerk refEnv sampleStore (createRequest (VObject tooHigh)))
    = sampleStore /\
  snd (updatePerk refEnv sampleStore (idRequest gymId (VObject threeBad)))
    = sampleStore.
Proof.
  split.
  - pose proof (store_written_on_success_only refEnv sampleStore
                  (createRequest (VObject tooHigh)))
      as [_ [_ [_ [_ [Hc _]]]]].
    destruct (Hc _ _ eq_refl) as [_ [H|[doc [H _]]]];
      [exact H | discriminate].
  - pose proof (store_written_on_success_only refEnv sampleStore
                  (idRequest gymId (VObject threeBad)))
      as [_ [_ [_ [_ [_ [Hu _]]]]]].
    destruct (Hu _ _ eq_refl) as [_ [H|[doc [H _]]]];
      [exact H | discriminate].
Defined.

(** X5, on the sample store: the perk is removed, and then not found. *)
Lemma deletePerk_removes_witness :
  isValid refEnv gymId = true /\
  distinct_ids (perks sampleStore) = true /\
  In gymPerk (perks sampleStore) /\
  get "_id" gymPerk = VObjectId (castId refEnv gymId) /\
  exists st',
    deletePerk refEnv sampleStore (idRequest gymId VUndefined) =
      (Respond 200 Acknowledge, st') /\
    deletePerk refEnv st' (idRequest gymId VUndefined) =
      (Respond 404 (Message "Perk not found"), st').
Proof.
  assert (Hin : In gymPerk (perks sampleStore)) by (simpl; auto).
  repeat (split; [first [reflexivity | exact Hin]|]).
  destruct (deletePerk_removes refEnv sampleStore (idRequest gymId VUndefined)
              gymPerk eq_refl eq_refl Hin eq_refl)
    as [st' [Hd [_ [_ [_ H2]]]]].
  exists st'. split; assumption.
Defined.

(** X6, on the sample store: an identifier that no perk carries. *)
Lemma unknown_id_not_found_witness :
  isValid refEnv "00000000000000000000000f" = true /\
  updatePerk refEnv sampleStore
             (idRequest "00000000000000000000000f" (VObject renamePayload)) =
    (Respond 404 (Message "Perk not found"), sampleStore).
Proof.
  split; [reflexivity|].
  apply (unknown_id_not_found refEnv sampleStore
           (idRequest "00000000000000000000000f" (VObject renamePayload))).
  - reflexivity.
  - intros d [<-|[]] H. vm_compute in H. discriminate.
Defined.

(** X7, on the store of Alice. *)
Lemma getPerk_finds_witness :
  isValid refEnv "000000000000000000000004" = true /\
  distinct_ids (perks aliceStore) = true /\
  In mailPerk (perks aliceStore) /\
  getPerk refEnv aliceStore (idRequest "000000000000000000000004" VUndefined) =
    (Respond 200 (OnePerk mailPerk), aliceStore).
Proof.
  assert (Hin : In mailPerk (perks aliceStore)) by (simpl; auto).
  repeat (split; [first [reflexivity | exact Hin]|]).
  apply (getPerk_finds refEnv aliceStore
           (idRequest "000000000000000000000004" VUndefined) mailPerk);
    first [reflexivity | exact Hin].
Defined.

(** X8, on the sample store: an update that renames the perk and names
    another owner. *)
Lemma updatePerk_keeps_identity_witness :
  exists doc st',
    updatePerk refEnv sampleStore (idRequest gymId (VObject renamePayload)) =
      (Respond 200 (OnePerk doc), st') /\
    get "title" doc = VStr "Gym Plus" /\
    get "createdBy" doc = VStr "Alice" /\
    getPerk refEnv st' (idRequest gymId (VObject renamePayload)) =
      (Respond 200 (OnePerk doc), st').
Proof.
  eexists. eexists. split; [reflexivity|]. split; [reflexivity|].
  destruct (updatePerk_keeps_identity refEnv sampleStore
              (idRequest gymId (VObject renamePayload)) _ _ eq_refl)
    as [existing [Hin [_ [_ [_ [Hc [_ [_ [_ Hg]]]]]]]]].
  split; [|exact Hg].
  destruct Hin as [<-|[]]. exact Hc.
Defined.

(** X9, on the sample store: the second identifier. *)
Lemma createPerk_then_getPerk_witness :
  params_id (idRequest "000000000000000000000002" VUndefined)
    = newId refEnv sampleStore /\
  isValid refEnv (newId refEnv sampleStore) = true /\
  castId refEnv (newId refEnv sampleStore) = newId refEnv sampleStore /\
  exists doc st',
    createPerk refEnv sampleStore (createRequest (VObject [("title", VStr "Spa")]))
      = (Respond 201 (OnePerk doc), st') /\
    getPerk refEnv st' (idRequest "000000000000000000000002" VUndefined)
      = (Respond 200 (OnePerk doc), st').
Proof.
  repeat (split; [reflexivity|]).
  eexists. eexists. split; [reflexivity|].
  apply (createPerk_then_getPerk refEnv sampleStore
           (createRequest (VObject [("title", VStr "Spa")])));
    try reflexivity.
  intros d [<-|[]] H. vm_compute in H. discriminate.
Defined.

(** X11, on the sample store: Alice creates a perk and lists her own. *)
Lemma created_perk_is_listed_witness :
  user (createRequest (VObject [("title", VStr "Spa")])) <> Some "" /\
  exists doc st' found,
    createPerk refEnv sampleStore (createRequest (VObject [("title", VStr "Spa")]))
      = (Respond 201 (OnePerk doc), st') /\
    getAllPerks refEnv st' (createRequest VUndefined)
      = (Respond 200 (ManyPerks found), st') /\
    In doc found.
Proof.
  assert (Hne : user (createRequest (VObject [("title", VStr "Spa")])) <> Some "")
    by discriminate.
  split; [exact Hne|].
  eexists. eexists.
  destruct (created_perk_is_listed refEnv sampleStore
              (createRequest (VObject [("title", VStr "Spa")])) _ _
              (createRequest VUndefined) eq_refl eq_refl Hne)
    as [found [Hl Hin]].
  exists found. split; [reflexivity|]. split; assumption.
Defined.

(** X13, on the store of Alice: the perk stored with her identifier. *)
Lemma creator_resolved_by_id_witness :
  In ownedPerk (perks aliceStore) /\
  selected refEnv listRequest ownedPerk = true /\
  isValid refEnv (creator_key refEnv ownedPerk) = true /\
  castId refEnv (creator_key refEnv ownedPerk) = creator_key refEnv ownedPerk /\
  user_id alice = creator_key refEnv ownedPerk /\
  exists u' resolved,
    getAllPerksPublic refEnv aliceStore listRequest =
      (Respond 200 (ManyPerks resolved), aliceStore) /\
    user_id u' = creator_key refEnv ownedPerk /\
    In (set "createdBy" (user_value u') ownedPerk) resolved.
Proof.
  assert (Hin : In ownedPerk (perks aliceStore)) by (simpl; auto).
  assert (Hu : In alice (users aliceStore)) by (simpl; auto).
  repeat (split; [first [reflexivity | exact Hin]|]).
  destruct (creator_resolved_by_id refEnv aliceStore listRequest ownedPerk alice
              Hin eq_refl eq_refl eq_refl eq_refl Hu eq_refl)
    as [u' [resolved [Hr [_ [Hid Hl]]]]].
  exists u', resolved. repeat split; assumption.
Defined.

(** X14, on the store of Alice: the perk stored with her email in mixed
    case. *)
Lemma creator_resolved_by_email_witness :
  In mailPerk (perks aliceStore) /\
  isValid refEnv (creator_key refEnv mailPerk) = false /\
  includes_char "@" (creator_key refEnv mailPerk) = true /\
  user_email alice = Some (toLowerCase (creator_key refEnv mailPerk)) /\
  exists u' resolved,
    getAllPerksPublic refEnv aliceStore listRequest =
      (Respond 200 (ManyPerks resolved), aliceStore) /\
    In u' (users aliceStore) /\
    In (set "createdBy" (user_value u') mailPerk) resolved.
Proof.
  assert (Hin : In mailPerk (perks aliceStore)) by (simpl; auto).
  assert (Hu : In alice (users aliceStore)) by (simpl; auto).
  repeat (split; [first [reflexivity | exact Hin]|]).
  destruct (creator_resolved_by_email refEnv aliceStore listRequest mailPerk alice
              Hin eq_refl eq_refl eq_refl eq_refl Hu eq_refl)
    as [u' [resolved [Hr [Hu' [_ Hl]]]]].
  exists u', resolved. repeat split; assumption.
Defined.

(** X15, on the sample store: a perk created from [{ title: "Spa" }]. *)
Lemma createPerk_stores_payload_witness :
  exists doc st',
    createPerk refEnv sampleStore (createRequest (VObject spaPayload))
      = (Respond 201 (OnePerk doc), st') /\
    get "title" doc = VStr "Spa" /\
    get "category" doc = VStr "other" /\
    get "discountPercent" doc = VNum 0 /\
    get "createdBy" doc = VStr (user_id alice).
Proof.
  eexists. eexists. split; [reflexivity|].
  destruct (createPerk_stores_payload refEnv sampleStore
              (createRequest (VObject spaPayload)) spaPayload _ _
              eq_refl eq_refl)
    as [Ht [_ [_ [Hc [Hd _]]]]].
  split; [exact Ht|]. split; [exact Hc|]. split; [exact (Hd eq_refl)|].
  reflexivity.
Defined.

(** X16, on the store of Bob: the perk stored with his name. *)
Lemma creator_resolved_by_name_witness :
  In bobPerk (perks bobStore) /\
  isValid refEnv (creator_key refEnv bobPerk) = false /\
  includes_char "@" (creator_key refEnv bobPerk) = false /\
  user_name bob = creator_key refEnv bobPerk /\
  exists u' resolved,
    getAllPerksPublic refEnv bobStore listRequest =
      (Respond 200 (ManyPerks resolved), bobStore) /\
    In u' (users bobStore) /\
    In (set "createdBy" (user_value u') bobPerk) resolved.
Proof.
  assert (Hin : In bobPerk (perks bobStore)) by (simpl; auto).
  assert (Hu : In bob (users bobStore)) by (simpl; auto).
  repeat (split; [first [reflexivity | exact Hin]|]).
  destruct (creator_resolved_by_name refEnv bobStore listRequest bobPerk bob
              Hin eq_refl eq_refl eq_refl eq_refl Hu eq_refl)
    as [u' [resolved [Hr [Hu' [_ Hl]]]]].
  - intros x [<-|[<-|[]]] Hx; [discriminate Hx | reflexivity].
  - exists u', resolved. repeat split; assumption.
Defined.

(** X17, on the payload with a title alone: what validation makes of it
    passes again as it is. *)
Lemma validate_idempotent_witness :
  validate refEnv perkSchema (VObject spaPayload) createPrefs
    = mkResult (VObject spaValidated) [] /\
  validate refEnv perkSchema (VObject spaValidated) createPrefs
    = mkResult (VObject spaValidated) [].
Proof.
  split; [reflexivity|].
  exact (validate_idempotent refEnv createPrefs spaPayload spaValidated
                             eq_refl eq_refl).
Defined.

(** ** Beyond ASCII *)

(** [toLowerCase] on accented capitals: U+00C9 becomes U+00E9, and the
    multiplication sign U+00D7, which lies among them, stays. *)
Example toLowerCase_accented :
  toLowerCase accentedMail = String (ascii_of_nat 233) "@x.com" /\
  toLowerCase (String (ascii_of_nat 215) "Z") = String (ascii_of_nat 215) "z".
Proof. split; reflexivity. Qed.

(** [trim] strips the no-break space with the other white space. *)
Example trim_no_break_space :
  trim nbsp = EmptyString /\
  trim ("Acme" ++ nbsp)%string = "Acme" /\
  trim (nbsp ++ " Acme Gym " ++ nbsp)%string = "Acme Gym".
Proof. repeat split; reflexivity. Qed.

(** The public list on such input. A search that is a no-break space is
    blank and lists every perk; a merchant filter is trimmed of a no-break
    space at its end. The creator stored as the email with the capital is
    looked up by its lower-cased form, which is the email of no user: the
    user whose email is stored with the capital is not found, and the
    creator is null. *)
Example public_list_beyond_ascii :
  getAllPerksPublic refEnv erinStore (searchRequest nbsp) =
    (Respond 200 (ManyPerks [set "createdBy" VNull gymPerk;
                             set "createdBy" VNull erinPerk]), erinStore) /\
  getAllPerksPublic refEnv erinStore (merchantRequest ("Acme" ++ nbsp)%string) =
    (Respond 200 (ManyPerks [set "createdBy" VNull gymPerk;
                             set "createdBy" VNull erinPerk]), erinStore) /\
  user_email erin = Some (creator_key refEnv erinPerk) /\
  lookup_key erinStore (creator_key refEnv erinPerk) = None.
Proof. repeat split; reflexivity. Qed.
